(** * MetaNote: the ASR client adapters ([asr_client.py])

    A shallow embedding of [ASRClient] (remote HTTP adapter) and
    [LocalASRClient] (local whisper.cpp adapter), together with the Python
    built-ins they rely on ([str.strip], [str.split], [re.sub], ...).

    Python [str] values are sequences of Unicode code points; they are
    modelled as lists of [N].  Stateful code runs in a small state and
    exception monad over a [world] holding the file system, the process
    environment, the open file handles and the log. *)

From Stdlib Require Import NArith ZArith List String Ascii Lia Bool.
From stdpp Require Import base option list gmap.

#[local] Set Warnings "-clear-no-such-hyp".

Local Open Scope N_scope.

(** ** Python strings *)

Abbreviation char := N (only parsing).
Abbreviation str := (list N) (only parsing).
Abbreviation bytes := (list N) (only parsing).

(** The code points of an ASCII literal. *)
Definition py (s : string) : str := map N_of_ascii (list_ascii_of_string s).

(** [str.isspace] on one code point: the white space table of CPython
    ([_PyUnicode_IsWhitespace]). *)
Definition isspace (c : char) : bool :=
  ((0x09 <=? c) && (c <=? 0x0D)) || ((0x1C <=? c) && (c <=? 0x20))
  || (c =? 0x85) || (c =? 0xA0) || (c =? 0x1680)
  || ((0x2000 <=? c) && (c <=? 0x200A))
  || (c =? 0x2028) || (c =? 0x2029) || (c =? 0x202F) || (c =? 0x205F)
  || (c =? 0x3000).

Fixpoint lstrip_by (p : char -> bool) (s : str) : str :=
  match s with
  | c :: s' => if p c then lstrip_by p s' else s
  | [] => []
  end.

Definition rstrip_by (p : char -> bool) (s : str) : str :=
  rev (lstrip_by p (rev s)).

Definition strip_by (p : char -> bool) (s : str) : str :=
  rstrip_by p (lstrip_by p s).

(** [s.strip()] *)
Definition strip (s : str) : str := strip_by isspace s.

(** [s.strip(chars)] *)
Definition strip_chars (chars : str) (s : str) : str :=
  strip_by (fun c => existsb (N.eqb c) chars) s.

(** [s.startswith(pre)] *)
Fixpoint startswith (pre s : str) : bool :=
  match pre, s with
  | [], _ => true
  | a :: pre', b :: s' => (a =? b) && startswith pre' s'
  | _ :: _, [] => false
  end.

(** [sub in s] *)
Fixpoint contains (sub s : str) : bool :=
  startswith sub s ||
  match s with
  | [] => false
  | _ :: s' => contains sub s'
  end.

(** The text before and after the leftmost occurrence of [sep] in [s]
    ([s.find(sep)] followed by the two slices), [None] when there is none. *)
Fixpoint partition_at (sep s : str) : option (str * str) :=
  if startswith sep s then Some ([], drop (length sep) s)
  else match s with
       | [] => None
       | c :: s' =>
           match partition_at sep s' with
           | Some (a, b) => Some (c :: a, b)
           | None => None
           end
       end.

Fixpoint split_fuel (fuel : nat) (sep s : str) : list str :=
  match fuel with
  | O => [s]
  | S n =>
      match partition_at sep s with
      | None => [s]
      | Some (a, b) => a :: split_fuel n sep b
      end
  end.

(** [s.split(sep)] for a non-empty separator: cut at the leftmost
    occurrences, left to right, without overlap. *)
Definition split (sep s : str) : list str := split_fuel (length s) sep s.

(** [s.split(sep, 1)] *)
Definition split1 (sep s : str) : list str :=
  match partition_at sep s with
  | None => [s]
  | Some (a, b) => [a; b]
  end.

(** [sep.join(parts)] *)
Fixpoint join (sep : str) (parts : list str) : str :=
  match parts with
  | [] => []
  | [p] => p
  | p :: rest => p ++ sep ++ join sep rest
  end.

(** ** Regular expressions ([re])

    The fragment of [re] syntax that [ansi_escape] uses: literal characters,
    character classes given by ranges, concatenation, alternation and the
    greedy star of a character class. *)

Inductive regex : Type :=
| Chr (c : char)
| Class (ranges : list (char * char))
| Seq (r1 r2 : regex)
| Alt (r1 r2 : regex)
| StarClass (ranges : list (char * char)).

Definition in_ranges (ranges : list (char * char)) (c : char) : bool :=
  existsb (fun r => (fst r <=? c) && (c <=? snd r)) ranges.

(** Greedy repetition with backtracking: the longest run is tried first. *)
Fixpoint star_class {A} (ranges : list (char * char)) (s : str)
    (k : str -> option A) : option A :=
  match s with
  | c :: s' =>
      if in_ranges ranges c then
        match star_class ranges s' k with
        | Some out => Some out
        | None => k s
        end
      else k s
  | [] => k s
  end.

(** The backtracking matcher of [re]: match [r] at the start of [s] and hand
    what is left to the continuation [k]; alternatives are tried in order. *)
Fixpoint rmatch {A} (r : regex) (s : str) (k : str -> option A) : option A :=
  match r with
  | Chr c =>
      match s with
      | x :: s' => if x =? c then k s' else None
      | [] => None
      end
  | Class ranges =>
      match s with
      | x :: s' => if in_ranges ranges x then k s' else None
      | [] => None
      end
  | Seq r1 r2 => rmatch r1 s (fun s' => rmatch r2 s' k)
  | Alt r1 r2 =>
      match rmatch r1 s k with
      | Some out => Some out
      | None => rmatch r2 s k
      end
  | StarClass ranges => star_class ranges s k
  end.

(** [pattern.match(s)]: what follows the match at the start of [s]. *)
Definition re_match (r : regex) (s : str) : option str := rmatch r s Some.

Fixpoint re_sub_fuel (fuel : nat) (r : regex) (s : str) : str :=
  match fuel with
  | O => s
  | S n =>
      match s with
      | [] => []
      | c :: s' =>
          match re_match r s with
          | Some rest =>
              if (length rest <? length s)%nat then re_sub_fuel n r rest
              else c :: re_sub_fuel n r s'
          | None => c :: re_sub_fuel n r s'
          end
      end
  end.

(** [pattern.sub('', s)]: delete the leftmost non-overlapping matches found
    in one scan from left to right. *)
Definition re_sub (r : regex) (s : str) : str := re_sub_fuel (length s) r s.

(** The language of a pattern. *)
Inductive matches : regex -> str -> Prop :=
| M_Chr c : matches (Chr c) [c]
| M_Class ranges c : in_ranges ranges c = true -> matches (Class ranges) [c]
| M_Seq r1 r2 m1 m2 :
    matches r1 m1 -> matches r2 m2 -> matches (Seq r1 r2) (m1 ++ m2)
| M_AltL r1 r2 m : matches r1 m -> matches (Alt r1 r2) m
| M_AltR r1 r2 m : matches r2 m -> matches (Alt r1 r2) m
| M_Star ranges m :
    forallb (in_ranges ranges) m = true -> matches (StarClass ranges) m.

(** [s] contains a substring in the language of [r]. *)
Definition has_match (r : regex) (s : str) : Prop :=
  exists pre m post, s = pre ++ m ++ post /\ matches r m.

(** ** The output sanitizer (asr_client.py, lines 255-256) *)

Definition ESC : char := 0x1B.

(** [re.compile(r'\x1B(?:[@-Z\\-_]|\[[0-?]*[ -/]*[@-~])')] *)
Definition ansi_escape : regex :=
  Seq (Chr ESC)
      (Alt (Class [(0x40, 0x5A); (0x5C, 0x5F)])
           (Seq (Chr 0x5B)
                (Seq (StarClass [(0x30, 0x3F)])
                     (Seq (StarClass [(0x20, 0x2F)])
                          (Class [(0x40, 0x7E)]))))).

(** [ansi_escape.sub('', stdout_text)] *)
Definition sanitize (stdout_text : str) : str := re_sub ansi_escape stdout_text.

(** The escape-sequence pattern as section 4.2 of the specification words it:
    ESC followed by one character out of [@]-[Z], [\], [^], [_], or by a
    CSI sequence. *)
Definition spec_pattern : regex :=
  Seq (Chr ESC)
      (Alt (Class [(0x40, 0x5A); (0x5C, 0x5C); (0x5E, 0x5E); (0x5F, 0x5F)])
           (Seq (Chr 0x5B)
                (Seq (StarClass [(0x30, 0x3F)])
                     (Seq (StarClass [(0x20, 0x2F)])
                          (Class [(0x40, 0x7E)]))))).

(** ** The segment parser (asr_client.py, lines 286-306) *)

Inductive exn : Type :=
| TimeoutExpired
| FileNotFoundError
| OSError
| UnicodeDecodeError
| ValueError
| KeyError
| TypeError
| ConnectionError
| OtherException.

Inductive outcome (A : Type) : Type :=
| Return (a : A)
| Raise (e : exn).
Arguments Return {A} a.
Arguments Raise {A} e.

Definition obind {A B} (o : outcome A) (k : A -> outcome B) : outcome B :=
  match o with
  | Return a => k a
  | Raise e => Raise e
  end.

Record segment : Type := {
  start : str;
  end_ : str;
  text : str;
}.

(** [a, b = parts] *)
Definition unpack2 (parts : list str) : outcome (str * str) :=
  match parts with
  | [a; b] => Return (a, b)
  | _ => Raise ValueError
  end.

(** The body of the [try] block of the parsing loop, on a trimmed line. *)
Definition parse_line (line : str) : outcome segment :=
  obind (unpack2 (split1 (py "]") line)) (fun '(time_part, text) =>
  let time_part := strip_chars (py "[") time_part in
  obind (unpack2 (split (py "-->") time_part)) (fun '(start_time, end_time) =>
  Return {| start := strip start_time;
            end_ := strip end_time;
            text := strip text |})).

(** [line.startswith('[') and '-->' in line] *)
Definition is_segment_line (line : str) : bool :=
  startswith (py "[") line && contains (py "-->") line.

(** Section 4.3 of the specification in its own words: split at the first
    [']'], drop the leading ['['] of the time-range part, split that part at
    ['-->'], trim the three fields.  [None] where the words do not say what
    the parts are. *)
Definition spec_parse_line (line : str) : option segment :=
  match partition_at (py "]") line with
  | Some (time_range, text_part) =>
      let time_range :=
        match time_range with
        | c :: rest => if c =? 0x5B then rest else time_range
        | [] => []
        end in
      match partition_at (py "-->") time_range with
      | Some (start_part, end_part) =>
          Some {| start := strip start_part;
                  end_ := strip end_part;
                  text := strip text_part |}
      | None => None
      end
  | None => None
  end.

(** ** The world the adapters run in *)

Inductive node : Type := RegularFile | Directory.

Inductive level : Type := INFO | WARNING | ERROR.

(** The JSON documents a response body can hold. *)
#[local] Unset Elimination Schemes.
Inductive json : Type :=
| JNull
| JBool (b : bool)
| JNumber (literal : str)
| JString (s : str)
| JArray (items : list json)
| JObject (fields : list (str * json)).
#[local] Set Elimination Schemes.

(** One constructor for each logging call of the module, carrying the values
    interpolated into the message. *)
Inductive message : Type :=
| ExecutingCommand (command_line : str)        (* line 195 *)
| SettingDyldLibraryPath (value : str)         (* line 223 *)
| CommandFinished (returncode : Z)             (* line 236 *)
| StdoutLength (n : nat)                       (* line 237 *)
| StderrLength (n : nat)                       (* line 238 *)
| StdoutNotUtf8                                (* line 248 *)
| LineSkipped (line : str) (parse_error : exn) (* lines 275 and 306 *)
| StderrDecoded (stderr_text : str)            (* line 278 *)
| RecognitionSucceeded (n : nat)               (* line 283 *)
| SegmentsParsed (n : nat)                     (* line 308 *)
| CommandFailed (returncode : Z)               (* line 322 *)
| StderrDetail (stderr_text : str)             (* line 323 *)
| CommandTimedOut                              (* line 327 *)
| CommandNotFound (path : str)                 (* line 330 *)
| UnknownError (e : exn)                       (* line 333 *)
| FileMissing (path : str)                     (* line 63 *)
| Recognizing (path : str)                     (* line 73 *)
| RecognitionOk                                (* line 82 *)
| ResultFilename (value : json)                (* line 83 *)
| ResultProcessingTime (value : option json)   (* line 84 *)
| HttpStatus (status_code : Z)                 (* line 87 *)
| HttpErrorText (response_text : str)          (* line 88 *)
| CannotConnect                                (* line 92 *)
| RecognitionError (e : exn)                   (* line 95 *)
| NoExtractFunction                            (* line 115 *)
| ExtractionFailed                             (* line 122 *)
| CleanupFailed (e : exn)                      (* line 133 *)
| VideoError (e : exn)                         (* line 138 *)
| ProcessingFile (path : str).                 (* line 153 *)

(** One call of [subprocess.run]. *)
Record run_call : Type := {
  run_command : list str;
  run_timeout : N;
  run_env : gmap str str;
}.

Record world : Type := {
  files : gmap str node;           (* the paths that exist on disk *)
  environ : gmap str str;          (* [os.environ] *)
  open_files : gset nat;           (* the file handles that are open *)
  next_handle : nat;
  run_calls : list run_call;       (* calls of [subprocess.run], oldest first *)
  log : list (level * message);    (* log records, oldest first *)
}.

(** What the operating system does with a command line: the executable is
    not found, cannot be started, or runs for [elapsed_ms] milliseconds
    ([None]: it never exits by itself) and leaves an exit code and its two
    output streams.  What the child does to the file system is outside the
    model; it cannot touch [os.environ] of its parent. *)
Inductive execution : Type :=
| NoSuchExecutable
| LaunchFault
| Runs (elapsed_ms : option N) (returncode : Z) (stdout stderr : bytes).

Record response : Type := {
  status_code : Z;
  response_text : str;
  response_json : option json;     (* [None]: [response.json()] raises *)
}.

Inductive http_outcome : Type :=
| Responds (r : response)
| ConnectionFails
| RequestFails.

(** The collaborators outside the module: library functions that depend on
    the platform, the transcription executable and the remote service. *)
Record host : Type := {
  abspath : str -> str;                       (* [os.path.abspath] *)
  decode_utf8 : bytes -> option str;          (* [b.decode('utf-8')] *)
  decode_utf8_ignore : bytes -> str;          (* [errors='ignore'] *)
  execute : list str -> gmap str str -> execution;
  http_post : str -> str -> http_outcome;     (* url, uploaded file name *)
}.

(** ** State and exceptions *)

Definition M (A : Type) : Type := world -> outcome A * world.

Definition ret {A} (a : A) : M A := fun w => (Return a, w).

Definition raise {A} (e : exn) : M A := fun w => (Raise e, w).

Definition bind {A B} (m : M A) (k : A -> M B) : M B :=
  fun w =>
    match m w with
    | (Return a, w') => k a w'
    | (Raise e, w') => (Raise e, w')
    end.

(** [try: m  except ...: handler]; a handler of [None] lets the exception
    pass. *)
Definition try_except {A} (m : M A) (handler : exn -> option (M A)) : M A :=
  fun w =>
    match m w with
    | (Return a, w') => (Return a, w')
    | (Raise e, w') =>
        match handler e with
        | Some k => k w'
        | None => (Raise e, w')
        end
    end.

Definition lift {A} (o : outcome A) : M A := fun w => (o, w).

Declare Scope py_scope.
Delimit Scope py_scope with py.
Notation "x <- m ;; k" := (bind m (fun x => k))
  (at level 100, m at next level, right associativity) : py_scope.
Notation "m ;; k" := (bind m (fun _ => k))
  (at level 100, right associativity) : py_scope.
Local Open Scope py_scope.

Fixpoint for_each {A S} (items : list A) (acc : S) (body : S -> A -> M S) : M S :=
  match items with
  | [] => ret acc
  | x :: rest => acc' <- body acc x ;; for_each rest acc' body
  end.

Definition when (b : bool) (m : M unit) : M unit := if b then m else ret tt.

(** Updates of one component of the world. *)
Definition add_log (entries : list (level * message)) (w : world) : world :=
  {| files := files w; environ := environ w; open_files := open_files w;
     next_handle := next_handle w; run_calls := run_calls w;
     log := log w ++ entries |}.

Definition set_files (fs : gmap str node) (w : world) : world :=
  {| files := fs; environ := environ w; open_files := open_files w;
     next_handle := next_handle w; run_calls := run_calls w; log := log w |}.

Definition set_open_files (handles : gset nat) (next : nat) (w : world) : world :=
  {| files := files w; environ := environ w; open_files := handles;
     next_handle := next; run_calls := run_calls w; log := log w |}.

Definition add_run_call (c : run_call) (w : world) : world :=
  {| files := files w; environ := environ w; open_files := open_files w;
     next_handle := next_handle w; run_calls := run_calls w ++ [c];
     log := log w |}.

(** [logger.info], [logger.warning], [logger.error] *)
Definition logger (lvl : level) (msg : message) : M unit :=
  fun w => (Return tt, add_log [(lvl, msg)] w).

(** [os.path.exists(path)] *)
Definition path_exists (path : str) : M bool :=
  fun w => (Return (bool_decide (is_Some (files w !! path))), w).

(** [os.environ.copy()] *)
Definition environ_copy : M (gmap str str) :=
  fun w => (Return (environ w), w).

(** [os.unlink(path)] *)
Definition unlink (path : str) : M unit :=
  fun w =>
    match files w !! path with
    | Some RegularFile => (Return tt, set_files (delete path (files w)) w)
    | Some Directory => (Raise OSError, w)
    | None => (Raise FileNotFoundError, w)
    end.

(** [open(path, 'rb')] *)
Definition open_rb (path : str) : M nat :=
  fun w =>
    match files w !! path with
    | Some RegularFile =>
        (Return (next_handle w),
         set_open_files ({[next_handle w]} ∪ open_files w) (S (next_handle w)) w)
    | Some Directory => (Raise OSError, w)
    | None => (Raise FileNotFoundError, w)
    end.

(** [f.close()] *)
Definition close (handle : nat) : M unit :=
  fun w =>
    (Return tt, set_open_files (open_files w ∖ {[handle]}) (next_handle w) w).

Record CompletedProcess : Type := {
  returncode : Z;
  stdout : bytes;
  stderr : bytes;
}.

(** The child is still running when a timeout given in seconds expires. *)
Definition outlives (timeout : N) (elapsed_ms : option N) : bool :=
  match elapsed_ms with
  | Some ms => 1000 * timeout <? ms
  | None => true
  end.

(** [subprocess.run(command, capture_output=True, check=False,
    timeout=timeout, env=env)] *)
Definition subprocess_run (h : host) (command : list str) (timeout : N)
    (env : gmap str str) : M CompletedProcess :=
  fun w =>
    let w' :=
      add_run_call {| run_command := command; run_timeout := timeout;
                      run_env := env |} w in
    match execute h command env with
    | NoSuchExecutable => (Raise FileNotFoundError, w')
    | LaunchFault => (Raise OSError, w')
    | Runs elapsed_ms rc out err =>
        if outlives timeout elapsed_ms then (Raise TimeoutExpired, w')
        else (Return {| returncode := rc; stdout := out; stderr := err |}, w')
    end.

(** ** [os.path] on POSIX *)

Definition is_slash (c : char) : bool := c =? 0x2F.

Fixpoint take_while (p : char -> bool) (s : str) : str :=
  match s with
  | c :: s' => if p c then c :: take_while p s' else []
  | [] => []
  end.

(** [os.path.basename(p)]: what follows the last slash. *)
Definition basename (p : str) : str :=
  rev (take_while (fun c => negb (is_slash c)) (rev p)).

(** [os.path.dirname(p)]: what precedes the base name, without its trailing
    slashes unless it consists of slashes only. *)
Definition dirname (p : str) : str :=
  let head := take (length p - length (basename p)) p in
  if negb (forallb is_slash head) then rstrip_by is_slash head else head.

(** [os.path.join(a, *p)] *)
Definition path_join (a : str) (p : list str) : str :=
  fold_left
    (fun path b =>
       if startswith (py "/") b then b
       else if match last path with
               | Some c => is_slash c
               | None => true
               end
            then path ++ b
            else path ++ py "/" ++ b)
    p a.

Definition LF : char := 0x0A.

(** [[d for d in dirs if os.path.exists(d)]] *)
Definition existing (dirs : list str) : M (list str) :=
  for_each dirs [] (fun kept d =>
    found <- path_exists d ;;
    ret (if found then kept ++ [d] else kept)).

(** ** [class ASRClient]: the remote adapter *)

Module ASRClient.

Record t : Type := { server_url : str }.

(** [__init__]: [self.server_url = server_url.rstrip('/')] *)
Definition init (server_url : str) : t :=
  {| server_url := rstrip_by is_slash server_url |}.

(** [json.loads] keeps the last of several bindings of a key. *)
Fixpoint dict_get (fields : list (str * json)) (key : str) : option json :=
  match fields with
  | [] => None
  | (k, v) :: rest =>
      match dict_get rest key with
      | Some v' => Some v'
      | None => if decide (k = key) then Some v else None
      end
  end.

(** [result[key]] *)
Definition getitem (result : json) (key : str) : outcome json :=
  match result with
  | JObject fields =>
      match dict_get fields key with
      | Some v => Return v
      | None => Raise KeyError
      end
  | _ => Raise TypeError
  end.

(** [result.get(key, default)] on a dictionary *)
Definition get (result : json) (key : str) : option json :=
  match result with
  | JObject fields => dict_get fields key
  | _ => None
  end.

Section Methods.
Context (h : host) (self : t).

(** [requests.post(url, files=files)] *)
Definition requests_post (url : str) (file_name : str) : M response :=
  lift match http_post h url file_name with
       | Responds r => Return r
       | ConnectionFails => Raise ConnectionError
       | RequestFails => Raise OtherException
       end.

(** [response.json()] *)
Definition response_decode (r : response) : M json :=
  lift match response_json r with
       | Some j => Return j
       | None => Raise ValueError
       end.

(** Lines 51-101. *)
Definition recognize_audio (audio_path : str) : M (option json) :=
  found <- path_exists audio_path ;;
  if negb found then
    logger ERROR (FileMissing audio_path) ;;
    ret None
  else
    handle <- open_rb audio_path ;;
    let files := (basename audio_path, handle) in
    try_except
      (logger INFO (Recognizing audio_path) ;;
       response <- requests_post (server_url self ++ py "/asr/recognize")
                                 (fst files) ;;
       close (snd files) ;;
       if (status_code response =? 200)%Z then
         result <- response_decode response ;;
         logger INFO RecognitionOk ;;
         name <- lift (getitem result (py "filename")) ;;
         logger INFO (ResultFilename name) ;;
         logger INFO (ResultProcessingTime (get result (py "processing_time"))) ;;
         ret (Some result)
       else
         logger ERROR (HttpStatus (status_code response)) ;;
         logger ERROR (HttpErrorText (response_text response)) ;;
         ret None)
      (fun e =>
         match e with
         | ConnectionError =>
             Some (logger ERROR CannotConnect ;;
                   ret None)
         | _ =>
             Some (logger ERROR (RecognitionError e) ;;
                   try_except (close (snd files)) (fun _ => Some (ret tt)) ;;
                   ret None)
         end).

(** Lines 103-139.  [extract_audio_func] is [None] when the caller passes
    no function; the function returns [None] or an empty path when it has
    no audio to give. *)
Definition process_video (video_path : str)
    (extract_audio_func : option (str -> M (option str))) : M (option json) :=
  match extract_audio_func with
  | None =>
      logger ERROR NoExtractFunction ;;
      ret None
  | Some extract =>
      try_except
        (audio_path <- extract video_path ;;
         match audio_path with
         | None | Some [] =>
             logger ERROR ExtractionFailed ;;
             ret None
         | Some audio_path =>
             result <- recognize_audio audio_path ;;
             found <- path_exists audio_path ;;
             when found
               (try_except (unlink audio_path)
                  (fun e => Some (logger WARNING (CleanupFailed e)))) ;;
             ret result
         end)
        (fun e => Some (logger ERROR (VideoError e) ;;
                        ret None))
  end.

(** Lines 141-160. *)
Definition recognize_multiple_files (audio_files : list str)
    : M (list (str * json)) :=
  for_each audio_files [] (fun results audio_file =>
    logger INFO (ProcessingFile audio_file) ;;
    result <- recognize_audio audio_file ;;
    ret match result with
        | Some r => results ++ [(audio_file, r)]
        | None => results
        end).
End Methods.

End ASRClient.

(** ** [class LocalASRClient]: the local whisper.cpp adapter *)

Module LocalASRClient.

Record t : Type := {
  whisper_cli_path : str;
  model_path : str;
}.

(** The dictionary that [recognize_audio] returns on success. *)
Record result : Type := {
  status : str;
  filename : str;
  segments : list segment;
  full_text : str;
  processing_time : option str;
  model : str;
}.

Section Methods.
Context (h : host) (self : t).

(** Line 183. *)
Definition check_health : M bool :=
  cli <- path_exists (whisper_cli_path self) ;;
  if cli then path_exists (model_path self) else ret false.

(** [raw.decode('utf-8')] *)
Definition decode (raw : bytes) : M str :=
  lift match decode_utf8 h raw with
       | Some decoded => Return decoded
       | None => Raise UnicodeDecodeError
       end.

(** The parsing loop, written twice in the source with the same text
    (lines 262-275 and 289-306). *)
Definition parse_lines (lines : list str) : M (list segment) :=
  for_each lines [] (fun segments line =>
    let line := strip line in
    if is_segment_line line then
      try_except
        (parsed <- lift (parse_line line) ;;
         ret (segments ++ [parsed]))
        (fun parse_error =>
           Some (logger WARNING (LineSkipped (take 100 line) parse_error) ;;
                 ret segments))
    else ret segments).

(** [segments = []; lines = stdout_text.strip().split('\n')] and the loop
    (lines 260-275 and 286-306). *)
Definition parse_segments (stdout_text : str) : M (list segment) :=
  let lines := split [LF] (strip stdout_text) in
  parse_lines lines.

(** Lines 185-334. *)
Definition recognize_audio (audio_path : str) : M (option result) :=
  let command :=
    [whisper_cli_path self;
     py "-m"; model_path self;
     py "-f"; audio_path;
     py "-otxt";
     py "-l"; py "zh";
     py "-pc"] in
  logger INFO (ExecutingCommand (join (py " ") command)) ;;
  let abs_cli_path := abspath h (whisper_cli_path self) in
  let cli_dir := dirname abs_cli_path in
  let build_dir := dirname cli_dir in
  let possible_lib_dirs :=
    [path_join build_dir [py "src"];
     path_join build_dir [py "ggml"; py "src"];
     path_join build_dir [py "ggml"; py "src"; py "ggml-blas"];
     path_join build_dir [py "ggml"; py "src"; py "ggml-metal"]] in
  existing_lib_dirs <- existing possible_lib_dirs ;;
  env <- environ_copy ;;
  env <- match existing_lib_dirs with
         | _ :: _ =>
             let lib_path := join (py ":") existing_lib_dirs in
             let existing_dyld :=
               default [] (env !! py "DYLD_LIBRARY_PATH") in
             let env :=
               match existing_dyld with
               | _ :: _ =>
                   <[py "DYLD_LIBRARY_PATH" := lib_path ++ py ":" ++ existing_dyld]> env
               | [] => <[py "DYLD_LIBRARY_PATH" := lib_path]> env
               end in
             logger INFO (SettingDyldLibraryPath
                            (default [] (env !! py "DYLD_LIBRARY_PATH"))) ;;
             ret env
         | [] => ret env
         end ;;
  try_except
    (result <- subprocess_run h command 120 env ;;
     logger INFO (CommandFinished (returncode result)) ;;
     logger INFO (StdoutLength (length (stdout result))) ;;
     logger INFO (StderrLength (length (stderr result))) ;;
     stdout_text <-
       try_except (decode (stdout result))
         (fun e =>
            match e with
            | UnicodeDecodeError =>
                Some (let stdout_text := decode_utf8_ignore h (stdout result) in
                      logger WARNING StdoutNotUtf8 ;;
                      ret stdout_text)
            | _ => None
            end) ;;
     stderr_text <-
       try_except (decode (stderr result))
         (fun e =>
            match e with
            | UnicodeDecodeError =>
                Some (ret (decode_utf8_ignore h (stderr result)))
            | _ => None
            end) ;;
     let stdout_text := sanitize stdout_text in
     parse_segments stdout_text ;;
     when (negb (bool_decide (stderr_text = [])))
       (logger INFO (StderrDecoded (take 500 stderr_text))) ;;
     if (returncode result =? 0)%Z then
       logger INFO (RecognitionSucceeded (length stdout_text)) ;;
       segments <- parse_segments stdout_text ;;
       logger INFO (SegmentsParsed (length segments)) ;;
       ret (Some {| status := py "success";
                    filename := basename audio_path;
                    segments := segments;
                    full_text := stdout_text;
                    processing_time := None;
                    model := py "whisper.cpp-ggml-base" |})
     else
       logger ERROR (CommandFailed (returncode result)) ;;
       logger ERROR (StderrDetail (take 1000 stderr_text)) ;;
       ret None)
    (fun e =>
       match e with
       | TimeoutExpired =>
           Some (logger ERROR CommandTimedOut ;;
                 ret None)
       | FileNotFoundError =>
           Some (logger ERROR (CommandNotFound (whisper_cli_path self)) ;;
                 ret None)
       | _ =>
           Some (logger ERROR (UnknownError e) ;;
                 ret None)
       end).

(** Lines 337-341: the body is [pass]. *)
Definition process_video (video_path : str)
    (extract_audio_func : option (str -> M (option str))) : M (option result) :=
  ret None.
End Methods.

End LocalASRClient.

(** ** Specification-side definitions used by the theorems *)

(** What follows the escape sequence at the start of [s]: the match of
    [ansi_escape] read off without backtracking. *)
Definition escape_tail (s : str) : option str :=
  match s with
  | c0 :: c :: rest =>
      if c0 =? ESC then
        if in_ranges [(0x40, 0x5A); (0x5C, 0x5F)] c then Some rest
        else if c =? 0x5B then
          match lstrip_by (in_ranges [(0x20, 0x2F)])
                  (lstrip_by (in_ranges [(0x30, 0x3F)]) rest) with
          | f :: rest' => if in_ranges [(0x40, 0x7E)] f then Some rest' else None
          | [] => None
          end
        else None
      else None
  | _ => None
  end.

(** Every ESC of [s] begins an escape sequence. *)
Definition escapes_complete (s : str) : Prop :=
  forall pre suf, s = pre ++ ESC :: suf ->
    exists m rest, matches ansi_escape m /\ ESC :: suf = m ++ rest.

(** What one line of [lines] adds to [segments]. *)
Definition line_segment (line : str) : option segment :=
  let line := strip line in
  if is_segment_line line then
    match parse_line line with
    | Return parsed => Some parsed
    | Raise _ => None
    end
  else None.

(** The warning that one line of [lines] leaves in the log. *)
Definition line_warnings (line : str) : list (level * message) :=
  let line := strip line in
  if is_segment_line line then
    match parse_line line with
    | Return _ => []
    | Raise parse_error => [(WARNING, LineSkipped (take 100 line) parse_error)]
    end
  else [].

(** A line that has the form of a segment line and fails to parse. *)
Definition malformed (line : str) : Prop :=
  is_segment_line (strip line) = true /\
  exists parse_error, parse_line (strip line) = Raise parse_error.

(** The text of a well-formed segment line [[<start> --> <end>]<text>]. *)
Definition segment_line (start_time end_time text : str) : str :=
  py "[" ++ start_time ++ py "-->" ++ end_time ++ py "]" ++ text.

Definition DYLD_LIBRARY_PATH : str := py "DYLD_LIBRARY_PATH".

(** The command line of the transcription executable. *)
Definition command_of (self : LocalASRClient.t) (audio_path : str) : list str :=
  [LocalASRClient.whisper_cli_path self;
   py "-m"; LocalASRClient.model_path self;
   py "-f"; audio_path;
   py "-otxt"; py "-l"; py "zh"; py "-pc"].

(** The candidate library directories next to the executable. *)
Definition candidate_lib_dirs (h : host) (self : LocalASRClient.t) : list str :=
  let build_dir :=
    dirname (dirname (abspath h (LocalASRClient.whisper_cli_path self))) in
  [path_join build_dir [py "src"];
   path_join build_dir [py "ggml"; py "src"];
   path_join build_dir [py "ggml"; py "src"; py "ggml-blas"];
   path_join build_dir [py "ggml"; py "src"; py "ggml-metal"]].

(** The library-search augmentation in the words of the specification: the
    directories, joined by colons, go in front of the prior value of
    [DYLD_LIBRARY_PATH]; nothing changes when there is no directory. *)
Definition augmented (dirs : list str) (env : gmap str str) : gmap str str :=
  match dirs with
  | [] => env
  | _ :: _ =>
      match env !! DYLD_LIBRARY_PATH with
      | Some (c :: prior) =>
          <[DYLD_LIBRARY_PATH := join (py ":") dirs ++ py ":" ++ c :: prior]> env
      | _ => <[DYLD_LIBRARY_PATH := join (py ":") dirs]> env
      end
  end.

(** The candidate directories that exist in [w]. *)
Definition existing_lib_dirs (h : host) (self : LocalASRClient.t) (w : world)
    : list str :=
  filter (fun d => is_Some (files w !! d)) (candidate_lib_dirs h self).

(** The environment handed to the child process. *)
Definition child_env (h : host) (self : LocalASRClient.t) (w : world)
    : gmap str str :=
  augmented (existing_lib_dirs h self w) (environ w).

(** The call of [subprocess.run] that [recognize_audio] makes. *)
Definition the_run_call (h : host) (self : LocalASRClient.t) (audio_path : str)
    (w : world) : run_call :=
  {| run_command := command_of self audio_path;
     run_timeout := 120;
     run_env := child_env h self w |}.

(** Decoding with the fallback of lines 243-253. *)
Definition decode_lossy (h : host) (raw : bytes) : str :=
  match decode_utf8 h raw with
  | Some decoded => decoded
  | None => decode_utf8_ignore h raw
  end.

(** The records logged before the child process is started. *)
Definition launch_log (h : host) (self : LocalASRClient.t) (audio_path : str)
    (w : world) : list (level * message) :=
  (INFO, ExecutingCommand (join (py " ") (command_of self audio_path))) ::
  match existing_lib_dirs h self w with
  | [] => []
  | _ :: _ =>
      [(INFO, SettingDyldLibraryPath
                (default [] (child_env h self w !! DYLD_LIBRARY_PATH)))]
  end.

(** The world at the moment the child process has been started. *)
Definition launched (h : host) (self : LocalASRClient.t) (audio_path : str)
    (w : world) : world :=
  add_run_call (the_run_call h self audio_path w)
    (add_log (launch_log h self audio_path w) w).

(** The records logged once the child has exited, before its exit code is
    looked at. *)
Definition exit_log (h : host) (rc : Z) (out err : bytes)
    : list (level * message) :=
  [(INFO, CommandFinished rc);
   (INFO, StdoutLength (length out));
   (INFO, StderrLength (length err))] ++
  match decode_utf8 h out with
  | Some _ => []
  | None => [(WARNING, StdoutNotUtf8)]
  end ++
  flat_map line_warnings (split [LF] (strip (sanitize (decode_lossy h out)))) ++
  match decode_lossy h err with
  | [] => []
  | _ :: _ => [(INFO, StderrDecoded (take 500 (decode_lossy h err)))]
  end.

(** The dictionary returned for the standard output [out]. *)
Definition success_result (h : host) (audio_path : str) (out : bytes)
    : LocalASRClient.result :=
  let stdout_text := sanitize (decode_lossy h out) in
  {| LocalASRClient.status := py "success";
     LocalASRClient.filename := basename audio_path;
     LocalASRClient.segments :=
       omap line_segment (split [LF] (strip stdout_text));
     LocalASRClient.full_text := stdout_text;
     LocalASRClient.processing_time := None;
     LocalASRClient.model := py "whisper.cpp-ggml-base" |}.

(** What the child's exit leads to (lines 235-324). *)
Definition after_exit (h : host) (audio_path : str) (rc : Z) (out err : bytes)
    (w : world) : outcome (option LocalASRClient.result) * world :=
  let stdout_text := sanitize (decode_lossy h out) in
  if (rc =? 0)%Z then
    (Return (Some (success_result h audio_path out)),
     add_log (exit_log h rc out err ++
              (INFO, RecognitionSucceeded (length stdout_text)) ::
              flat_map line_warnings (split [LF] (strip stdout_text)) ++
              [(INFO, SegmentsParsed
                        (length (omap line_segment
                                   (split [LF] (strip stdout_text)))))]) w)
  else
    (Return None,
     add_log (exit_log h rc out err ++
              [(ERROR, CommandFailed rc);
               (ERROR, StderrDetail (take 1000 (decode_lossy h err)))]) w).

(** The upload URL of the remote adapter. *)
Definition recognize_url (self : ASRClient.t) : str :=
  ASRClient.server_url self ++ py "/asr/recognize".

(** A host for running examples: paths are absolute already, output is
    7-bit, the executable and the service answer as given. *)
Definition example_host (exe : execution) (service : http_outcome) : host :=
  {| abspath := fun p => p;
     decode_utf8 := fun raw =>
       if forallb (fun b => b <? 128) raw then Some raw else None;
     decode_utf8_ignore := fun raw => List.filter (fun b => b <? 128) raw;
     execute := fun _ _ => exe;
     http_post := fun _ _ => service |}.

Definition empty_world : world :=
  {| files := ∅; environ := ∅; open_files := ∅; next_handle := 0;
     run_calls := []; log := [] |}.

(** The characters that [time_part.strip('[')] removes. *)
Definition is_bracket (c : char) : bool := existsb (N.eqb c) (py "[").

(** The two time stamps of a segment line: free of [']'] and of ['-->']. *)
Definition well_formed (start_time end_time : str) : Prop :=
  contains (py "]") start_time = false /\
  contains (py "]") end_time = false /\
  contains (py "-->") start_time = false /\
  contains (py "-->") end_time = false.

(** Every ESC of [s] begins an escape sequence, as a test. *)
Fixpoint escapes_complete_b (s : str) : bool :=
  match s with
  | [] => true
  | c :: s' =>
      (if c =? ESC then
         match escape_tail s with
         | Some _ => true
         | None => false
         end
       else true) && escapes_complete_b s'
  end.

(** A client, a world and a remote client for running examples. *)
Definition example_client : LocalASRClient.t :=
  {| LocalASRClient.whisper_cli_path := py "/opt/whisper.cpp/build/bin/whisper-cli";
     LocalASRClient.model_path := py "/opt/models/ggml-base.bin" |}.

Definition example_world : world :=
  {| files := {[ py "/tmp/lecture.wav" := RegularFile;
                 py "/opt/whisper.cpp/build/src" := Directory;
                 py "/opt/whisper.cpp/build/ggml/src" := Directory ]};
     environ := {[ DYLD_LIBRARY_PATH := py "/usr/local/lib";
                   py "HOME" := py "/root" ]};
     open_files := ∅;
     next_handle := 3;
     run_calls := [];
     log := [] |}.

Definition example_remote : ASRClient.t := ASRClient.init (py "http://localhost:8000/").

(** ** The rest of the module *)

(** The module-level [recognize_audio(audio_path, server_url)]
    (lines 344-356): a client for [server_url], then its method. *)
Definition recognize_audio (h : host) (audio_path server_url : str)
    : M (option json) :=
  let client := ASRClient.init server_url in
  ASRClient.recognize_audio h client audio_path.

(** [ASRClient.check_health] (lines 27-49) touches the world through the
    logger only.  It runs in a state and exception monad over the records it
    logs, one constructor for each of its logging calls. *)
Inductive health_message : Type :=
| ServiceStatus (value : json)          (* line 38 *)
| ModelLoaded (value : json)            (* line 39 *)
| HealthCheckFailed (status_code : Z)   (* line 42 *)
| HealthCannotConnect                   (* line 45 *)
| HealthCheckError (e : exn).           (* line 48 *)

Definition H (A : Type) : Type :=
  list (level * health_message) ->
  outcome A * list (level * health_message).

Definition hret {A} (a : A) : H A := fun l => (Return a, l).

Definition hbind {A B} (m : H A) (k : A -> H B) : H B :=
  fun l =>
    match m l with
    | (Return a, l') => k a l'
    | (Raise e, l') => (Raise e, l')
    end.

Definition htry {A} (m : H A) (handler : exn -> option (H A)) : H A :=
  fun l =>
    match m l with
    | (Return a, l') => (Return a, l')
    | (Raise e, l') =>
        match handler e with
        | Some k => k l'
        | None => (Raise e, l')
        end
    end.

Definition hlift {A} (o : outcome A) : H A := fun l => (o, l).

Definition hlogger (lvl : level) (msg : health_message) : H unit :=
  fun l => (Return tt, l ++ [(lvl, msg)]).

Module RemoteHealth.

(** [requests.get(url)] *)
Definition requests_get (http_get : str -> http_outcome) (url : str)
    : H response :=
  hlift match http_get url with
        | Responds r => Return r
        | ConnectionFails => Raise ConnectionError
        | RequestFails => Raise OtherException
        end.

(** Lines 27-49.  The value returned is [data['model_loaded']] as the
    service sent it, or [False]. *)
Definition check_health (http_get : str -> http_outcome) (self : ASRClient.t)
    : H json :=
  htry
    (hbind (requests_get http_get (ASRClient.server_url self ++ py "/health"))
       (fun response =>
     if (status_code response =? 200)%Z then
       hbind (hlift match response_json response with
                    | Some j => Return j
                    | None => Raise ValueError
                    end) (fun data =>
       hbind (hlift (ASRClient.getitem data (py "status"))) (fun status =>
       hbind (hlogger INFO (ServiceStatus status)) (fun _ =>
       hbind (hlift (ASRClient.getitem data (py "model_loaded")))
         (fun model_loaded =>
       hbind (hlogger INFO (ModelLoaded model_loaded)) (fun _ =>
       hbind (hlift (ASRClient.getitem data (py "model_loaded")))
         (fun returned =>
       hret returned))))))
     else
       hbind (hlogger ERROR (HealthCheckFailed (status_code response)))
         (fun _ =>
       hret (JBool false))))
    (fun e =>
       match e with
       | ConnectionError =>
           Some (hbind (hlogger ERROR HealthCannotConnect) (fun _ =>
                 hret (JBool false)))
       | _ =>
           Some (hbind (hlogger ERROR (HealthCheckError e)) (fun _ =>
                 hret (JBool false)))
       end).

End RemoteHealth.

(** What the remote [recognize_audio] answers for a path that can be opened:
    the body of a 200 response when it is a JSON object with a
    ["filename"]. *)
Definition remote_answer (h : host) (self : ASRClient.t) (audio_path : str)
    : option json :=
  match http_post h (recognize_url self) (basename audio_path) with
  | Responds r =>
      if (status_code r =? 200)%Z then
        match response_json r with
        | Some (JObject fields) =>
            match ASRClient.dict_get fields (py "filename") with
            | Some _ => Some (JObject fields)
            | None => None
            end
        | _ => None
        end
      else None
  | _ => None
  end.

(** What a batch answers for one path of a file system [fs]. *)
Definition batch_answer (h : host) (self : ASRClient.t) (fs : gmap str node)
    (audio_file : str) : option (str * json) :=
  match fs !! audio_file with
  | Some _ =>
      match remote_answer h self audio_file with
      | Some result => Some (audio_file, result)
      | None => None
      end
  | None => None
  end.

(** The number of skipped-line warnings among log records. *)
Definition skipped_lines (records : list (level * message)) : nat :=
  length (List.filter (fun r => match snd r with
                                | LineSkipped _ _ => true
                                | _ => false
                                end) records).

(** A text without white space at its ends. *)
Definition trimmed (s : str) : Prop := strip s = s.

(** * Theorems *)

(** ** Regular expressions *)

Lemma star_class_greedy {A} ranges (k : str -> option A) s :
  (forall x s', in_ranges ranges x = true -> k (x :: s') = None) ->
  star_class ranges s k = k (lstrip_by (in_ranges ranges) s).
Proof.
  intros Hk. induction s as [|c s IH]; simpl; [done|].
  destruct (in_ranges ranges c) eqn:Hc; [|done].
  rewrite IH. destruct (k (lstrip_by _ s)) eqn:Hs; [done|].
  by apply Hk.
Qed.

Lemma star_class_sound {A} ranges (k : str -> option A) s out :
  star_class ranges s k = Some out ->
  exists m s', s = m ++ s' /\ forallb (in_ranges ranges) m = true /\ k s' = Some out.
Proof.
  induction s as [|c s IH]; simpl; intros H.
  - by exists [], [].
  - destruct (in_ranges ranges c) eqn:Hc.
    + destruct (star_class ranges s k) eqn:Hs.
      * destruct (IH H) as (m & s' & -> & Hm & Hk).
        exists (c :: m), s'. simpl. rewrite Hc, Hm. by split_and!.
      * by exists [], (c :: s).
    + by exists [], (c :: s).
Qed.

Lemma star_class_complete {A} ranges (k : str -> option A) m s' :
  forallb (in_ranges ranges) m = true -> is_Some (k s') ->
  is_Some (star_class ranges (m ++ s') k).
Proof.
  intros Hm Hk. induction m as [|c m IH]; simpl in *.
  - destruct s' as [|c s']; [done|]. simpl.
    destruct (in_ranges ranges c); [|done].
    destruct (star_class ranges s' k); [by eexists|done].
  - apply andb_true_iff in Hm as [-> Hm].
    destruct (IH Hm) as [out ->]. by eexists.
Qed.

Lemma rmatch_sound {A} r : forall s (k : str -> option A) out,
  rmatch r s k = Some out ->
  exists m s', s = m ++ s' /\ matches r m /\ k s' = Some out.
Proof.
  induction r as [c|ranges|r1 IH1 r2 IH2|r1 IH1 r2 IH2|ranges];
    intros s k out H; simpl in H.
  - destruct s as [|x s]; [done|]. destruct (N.eqb_spec x c); [|done].
    subst. exists [c], s. split_and!; [done|constructor|done].
  - destruct s as [|x s]; [done|]. destruct (in_ranges ranges x) eqn:Hx; [|done].
    exists [x], s. split_and!; [done|by constructor|done].
  - apply IH1 in H as (m1 & s1 & -> & Hm1 & H).
    apply IH2 in H as (m2 & s2 & -> & Hm2 & H).
    exists (m1 ++ m2), s2. rewrite <- app_assoc. split_and!; [done|by constructor|done].
  - destruct (rmatch r1 s k) eqn:H1.
    + inversion H; subst. apply IH1 in H1 as (m & s' & -> & Hm & Hk).
      exists m, s'. split_and!; [done|by apply M_AltL|done].
    + apply IH2 in H as (m & s' & -> & Hm & Hk).
      exists m, s'. split_and!; [done|by apply M_AltR|done].
  - apply star_class_sound in H as (m & s' & -> & Hm & Hk).
    exists m, s'. split_and!; [done|by constructor|done].
Qed.

Lemma rmatch_complete {A} r m :
  matches r m -> forall s' (k : str -> option A),
  is_Some (k s') -> is_Some (rmatch r (m ++ s') k).
Proof.
  induction 1 as [c|ranges c Hc|r1 r2 m1 m2 _ IH1 _ IH2|r1 r2 m _ IH|r1 r2 m _ IH|ranges m Hm];
    intros s' k Hk; simpl.
  - by rewrite N.eqb_refl.
  - by rewrite Hc.
  - rewrite <- app_assoc. apply IH1. by apply IH2.
  - destruct (IH s' k Hk) as [out ->]. by eexists.
  - destruct (rmatch r1 (m ++ s') k); [by eexists|]. by apply IH.
  - by apply star_class_complete.
Qed.

Lemma re_match_sound r s rest :
  re_match r s = Some rest -> exists m, s = m ++ rest /\ matches r m.
Proof.
  intros H. apply rmatch_sound in H as (m & s' & -> & Hm & [= ->]). eauto.
Qed.

Lemma re_match_complete r m rest :
  matches r m -> is_Some (re_match r (m ++ rest)).
Proof. intros H. by apply rmatch_complete. Qed.

Lemma lstrip_by_length p s : (length (lstrip_by p s) <= length s)%nat.
Proof.
  induction s as [|c s IH]; simpl; [lia|]. destruct (p c); simpl; lia.
Qed.

Lemma lstrip_by_suffix p s : exists pre, s = pre ++ lstrip_by p s.
Proof.
  induction s as [|c s [pre IH]]; simpl; [by exists []|].
  destruct (p c); [|by exists []]. exists (c :: pre). simpl. congruence.
Qed.

Lemma in_ranges_single lo hi c :
  in_ranges [(lo, hi)] c = true -> lo <= c <= hi.
Proof.
  unfold in_ranges. simpl. rewrite orb_false_r.
  intros [H1 H2]%andb_true_iff. split; by apply N.leb_le.
Qed.

Ltac ranges_lia :=
  repeat match goal with
         | H : in_ranges [_] _ = true |- _ => apply in_ranges_single in H
         end;
  lia.

(** Backtracking never finds another match: the three classes of a CSI
    sequence are disjoint, and so are the two alternatives. *)
Lemma re_match_ansi_escape s : re_match ansi_escape s = escape_tail s.
Proof.
  unfold re_match, ansi_escape, escape_tail.
  cbn [rmatch].
  destruct s as [|c0 [|c rest]]; [done| |].
  - by destruct (c0 =? ESC).
  - destruct (c0 =? ESC); [|done].
    destruct (in_ranges [(64, 90); (92, 95)] c) eqn:H1; [done|].
    destruct (N.eqb_spec c 91) as [->|]; [|done].
    rewrite star_class_greedy.
    + rewrite star_class_greedy.
      * by destruct (lstrip_by _ (lstrip_by _ rest)).
      * intros x s' Hx. destruct (in_ranges [(64, 126)] x) eqn:Hf; [|done].
        ranges_lia.
    + intros x s' Hx. cbn [star_class].
      destruct (in_ranges [(32, 47)] x) eqn:Hi; [ranges_lia|].
      destruct (in_ranges [(64, 126)] x) eqn:Hf; [|done].
      ranges_lia.
Qed.

Lemma escape_tail_shorter s rest :
  escape_tail s = Some rest -> (length rest < length s)%nat.
Proof.
  unfold escape_tail. destruct s as [|c0 [|c s]]; [done..|].
  destruct (c0 =? ESC); [|done].
  destruct (in_ranges _ c); [intros [= <-]; simpl; lia|].
  destruct (c =? 91); [|done].
  pose proof (lstrip_by_length (in_ranges [(48, 63)]) s) as H1.
  pose proof (lstrip_by_length (in_ranges [(32, 47)])
                (lstrip_by (in_ranges [(48, 63)]) s)) as H2.
  destruct (lstrip_by _ (lstrip_by _ s)) as [|f r]; [done|].
  destruct (in_ranges _ f); [|done]. intros [= <-]. simpl in *. lia.
Qed.

Lemma escape_tail_esc s rest :
  escape_tail s = Some rest -> exists s', s = ESC :: s'.
Proof.
  unfold escape_tail. destruct s as [|c0 [|c s]]; [done..|].
  destruct (N.eqb_spec c0 ESC) as [->|]; [|done]. eauto.
Qed.

Lemma re_sub_fuel_enough r n : forall m s,
  (length s <= n)%nat -> (length s <= m)%nat ->
  re_sub_fuel n r s = re_sub_fuel m r s.
Proof.
  induction n as [|n IH]; intros m s Hn Hm.
  - destruct s; [|simpl in Hn; lia]. by destruct m.
  - destruct m as [|m]; [destruct s; [done|simpl in Hm; lia]|].
    simpl. destruct s as [|c s]; [done|]. simpl in Hn, Hm.
    destruct (re_match r (c :: s)) as [rest|].
    + destruct (length rest <? length (c :: s))%nat eqn:Hlt.
      * apply Nat.ltb_lt in Hlt. simpl in Hlt. apply IH; lia.
      * f_equal. apply IH; lia.
    + f_equal. apply IH; lia.
Qed.

Lemma re_sub_nil r : re_sub r [] = [].
Proof. done. Qed.

Lemma re_sub_cons r c s :
  re_sub r (c :: s) =
  match re_match r (c :: s) with
  | Some rest =>
      if (length rest <? length (c :: s))%nat then re_sub r rest
      else c :: re_sub r s
  | None => c :: re_sub r s
  end.
Proof.
  unfold re_sub at 1. cbn [length re_sub_fuel].
  destruct (re_match r (c :: s)) as [rest|]; [|done].
  destruct (Nat.ltb_spec (length rest) (S (length s))); [|done].
  apply re_sub_fuel_enough; lia.
Qed.

(** ** The sanitizer *)

Lemma sanitize_cons c s :
  sanitize (c :: s) =
  match escape_tail (c :: s) with
  | Some rest => sanitize rest
  | None => c :: sanitize s
  end.
Proof.
  unfold sanitize. rewrite re_sub_cons, re_match_ansi_escape.
  destruct (escape_tail (c :: s)) as [rest|] eqn:H; [|done].
  apply escape_tail_shorter in H. apply Nat.ltb_lt in H. by rewrite H.
Qed.

Lemma escape_tail_match s rest :
  escape_tail s = Some rest -> exists m, s = m ++ rest /\ matches ansi_escape m.
Proof. rewrite <- re_match_ansi_escape. apply re_match_sound. Qed.

Lemma matches_ansi_escape_esc m :
  matches ansi_escape m -> exists m', m = ESC :: m'.
Proof.
  unfold ansi_escape. intros H. inversion H as [| |? ? m1 m2 H1 H2| | |]; subst.
  inversion H1; subst. simpl. eauto.
Qed.

Lemma matches_spec_pattern_esc m :
  matches spec_pattern m -> exists m', m = ESC :: m'.
Proof.
  unfold spec_pattern. intros H. inversion H as [| |? ? m1 m2 H1 H2| | |]; subst.
  inversion H1; subst. simpl. eauto.
Qed.

Lemma no_esc_no_match s :
  ESC ∉ s -> ~ has_match ansi_escape s /\ ~ has_match spec_pattern s.
Proof.
  intros Hs. split; intros (pre & m & post & -> & Hm).
  - apply matches_ansi_escape_esc in Hm as [m' ->]. set_solver.
  - apply matches_spec_pattern_esc in Hm as [m' ->]. set_solver.
Qed.

Lemma sanitize_no_esc s : ESC ∉ s -> sanitize s = s.
Proof.
  induction s as [|c s IH]; intros Hs; [done|].
  rewrite sanitize_cons.
  destruct (escape_tail (c :: s)) as [rest|] eqn:H.
  - apply escape_tail_esc in H as [s' [= -> ->]]. set_solver.
  - rewrite IH; [done|]. set_solver.
Qed.


Lemma sanitize_complete_no_esc s : escapes_complete s -> ESC ∉ sanitize s.
Proof.
  remember (length s) as n eqn:Hn. revert s Hn.
  induction n as [n IH] using lt_wf_ind. intros s -> Hs.
  destruct s as [|c s]; [set_solver|].
  rewrite sanitize_cons.
  destruct (escape_tail (c :: s)) as [rest|] eqn:H.
  - pose proof (escape_tail_shorter _ _ H) as Hlen.
    apply escape_tail_match in H as (m & Hm & _).
    apply (IH (length rest)); [done..|].
    intros pre suf ->. apply (Hs (m ++ pre)). by rewrite Hm, <- app_assoc.
  - assert (c <> ESC) as Hc.
    { intros ->. destruct (Hs [] s eq_refl) as (m & rest & Hm & Heq).
      destruct (re_match_complete _ _ rest Hm) as [out Hout].
      rewrite <- Heq, re_match_ansi_escape, H in Hout. done. }
    apply not_elem_of_cons. split; [done|].
    apply (IH (length s)); [simpl; lia|done|].
    intros pre suf ->. by apply (Hs (c :: pre)).
Qed.

Example sanitize_hello :
  sanitize (ESC :: py "[1mHello" ++ ESC :: py "[0m") = py "Hello".
Proof. reflexivity. Qed.

Example sanitize_twice :
  sanitize (ESC :: ESC :: py "[mA") = ESC :: py "A".
Proof. reflexivity. Qed.

(** ** Python strings *)

Lemma startswith_app pre r : startswith pre (pre ++ r) = true.
Proof.
  induction pre as [|a pre IH]; simpl; [done|]. by rewrite N.eqb_refl.
Qed.

Lemma startswith_inv pre s :
  startswith pre s = true -> s = pre ++ drop (length pre) s.
Proof.
  revert s. induction pre as [|a pre IH]; intros s H; simpl in *; [done|].
  destruct s as [|b s]; [done|].
  apply andb_true_iff in H as [Hab H]. apply N.eqb_eq in Hab as ->.
  simpl. f_equal. by apply IH.
Qed.

Lemma partition_at_sound sep s a b :
  partition_at sep s = Some (a, b) -> s = a ++ sep ++ b.
Proof.
  revert a. induction s as [|c s IH]; intros a; simpl.
  - destruct (startswith sep []) eqn:H; [|done].
    intros [= <- <-]. by apply startswith_inv in H.
  - destruct (startswith sep (c :: s)) eqn:H.
    + intros [= <- <-]. by apply startswith_inv in H.
    + destruct (partition_at sep s) as [[a' b']|]; [|done].
      intros [= <- <-]. simpl. f_equal. by apply IH.
Qed.

Lemma partition_at_contains sep s :
  partition_at sep s = None <-> contains sep s = false.
Proof.
  induction s as [|c s IH]; simpl.
  - destruct (startswith sep []); simpl; split; done.
  - destruct (startswith sep (c :: s)); simpl; [split; done|].
    rewrite <- IH. destruct (partition_at sep s) as [[??]|]; split; done.
Qed.

Lemma partition_at_shorter sep s a b :
  sep <> [] -> partition_at sep s = Some (a, b) -> (length b < length s)%nat.
Proof.
  intros Hsep H. apply partition_at_sound in H as ->.
  rewrite !length_app. destruct sep; [done|]. simpl. lia.
Qed.

Lemma partition_at_nil sep : sep <> [] -> partition_at sep [] = None.
Proof. by destruct sep. Qed.

Lemma split_fuel_enough sep n : sep <> [] -> forall m s,
  (length s <= n)%nat -> (length s <= m)%nat ->
  split_fuel n sep s = split_fuel m sep s.
Proof.
  intros Hsep. induction n as [|n IH]; intros m s Hn Hm.
  - destruct s; [|simpl in Hn; lia].
    destruct m; cbn [split_fuel]; [done|]. by rewrite partition_at_nil.
  - destruct m as [|m].
    + destruct s; [|simpl in Hm; lia]. cbn [split_fuel].
      by rewrite partition_at_nil.
    + cbn [split_fuel].
      destruct (partition_at sep s) as [[a b]|] eqn:H; [|done].
      apply partition_at_shorter in H; [|done]. f_equal. apply IH; lia.
Qed.

Lemma split_unfold sep s :
  sep <> [] ->
  split sep s =
  match partition_at sep s with
  | None => [s]
  | Some (a, b) => a :: split sep b
  end.
Proof.
  intros Hsep. unfold split. destruct s as [|c s].
  - cbn [length split_fuel]. by rewrite partition_at_nil.
  - cbn [length split_fuel].
    destruct (partition_at sep (c :: s)) as [[a b]|] eqn:H; [|done].
    apply partition_at_shorter in H; [|done]. simpl in H.
    f_equal. apply split_fuel_enough; [done|lia..].
Qed.

Lemma split_not_nil sep s : split sep s <> [].
Proof.
  unfold split. destruct (length s); simpl; [done|].
  by destruct (partition_at sep s) as [[??]|].
Qed.

(** The pieces of [split], joined again, are the text: they are its parts in
    the order in which they occur. *)
Lemma join_split sep s : sep <> [] -> join sep (split sep s) = s.
Proof.
  intros Hsep. remember (length s) as n eqn:Hn. revert s Hn.
  induction n as [n IH] using lt_wf_ind. intros s ->.
  rewrite split_unfold by done.
  destruct (partition_at sep s) as [[a b]|] eqn:H; [|done].
  pose proof (partition_at_shorter _ _ _ _ Hsep H) as Hlen.
  apply partition_at_sound in H as ->.
  pose proof (split_not_nil sep b) as Hne.
  specialize (IH (length b) Hlen b eq_refl).
  simpl. destruct (split sep b) as [|p rest]; [done|]. by rewrite IH.
Qed.

(** ** State and exceptions *)

Lemma bind_return {A B} (m : M A) (k : A -> M B) w a w' :
  m w = (Return a, w') -> bind m k w = k a w'.
Proof. unfold bind. by intros ->. Qed.

Lemma bind_raise {A B} (m : M A) (k : A -> M B) w e w' :
  m w = (Raise e, w') -> bind m k w = (Raise e, w').
Proof. unfold bind. by intros ->. Qed.

Lemma bind_assoc {A B C} (m : M A) (f : A -> M B) (k : B -> M C) w :
  bind m (fun a => bind (f a) k) w = bind (bind m f) k w.
Proof. unfold bind. by destruct (m w) as [[a|e] w']. Qed.

Lemma add_log_nil w : add_log [] w = w.
Proof. destruct w. unfold add_log. simpl. by rewrite app_nil_r. Qed.

Lemma add_log_add_log a b w : add_log b (add_log a w) = add_log (a ++ b) w.
Proof. unfold add_log. simpl. by rewrite app_assoc. Qed.

Lemma existing_from kept dirs w :
  for_each dirs kept (fun kept d =>
    bind (path_exists d) (fun found =>
    ret (if found then kept ++ [d] else kept))) w =
  (Return (kept ++ filter (fun d => is_Some (files w !! d)) dirs), w).
Proof.
  revert kept. induction dirs as [|d dirs IH]; intros kept; simpl.
  - by rewrite app_nil_r.
  - unfold bind at 1. unfold bind at 1. unfold path_exists at 1. simpl.
    rewrite IH. rewrite filter_cons. case_bool_decide.
    + rewrite decide_True by done. by rewrite <- app_assoc.
    + by rewrite decide_False by done.
Qed.

Lemma existing_eq dirs w :
  existing dirs w = (Return (filter (fun d => is_Some (files w !! d)) dirs), w).
Proof. apply (existing_from []). Qed.

(** ** The segment parser *)

Lemma omap_line_segment_cons line lines :
  omap line_segment (line :: lines) =
  match line_segment line with
  | Some parsed => parsed :: omap line_segment lines
  | None => omap line_segment lines
  end.
Proof. done. Qed.

Lemma parse_line_step segments line w :
  (if is_segment_line (strip line) then
     try_except
       (bind (lift (parse_line (strip line))) (fun parsed =>
        ret (segments ++ [parsed])))
       (fun parse_error =>
          Some (bind (logger WARNING
                        (LineSkipped (take 100 (strip line)) parse_error))
                     (fun _ => ret segments)))
   else ret segments) w =
  (Return (match line_segment line with
           | Some parsed => segments ++ [parsed]
           | None => segments
           end),
   add_log (line_warnings line) w).
Proof.
  unfold line_segment, line_warnings.
  destruct (is_segment_line (strip line)).
  - unfold try_except, bind, lift, logger, ret.
    destruct (parse_line (strip line)); [by rewrite add_log_nil|done].
  - unfold ret. by rewrite add_log_nil.
Qed.

Lemma parse_lines_from segments lines w :
  for_each lines segments (fun segments line =>
    if is_segment_line (strip line) then
      try_except
        (bind (lift (parse_line (strip line))) (fun parsed =>
         ret (segments ++ [parsed])))
        (fun parse_error =>
           Some (bind (logger WARNING
                         (LineSkipped (take 100 (strip line)) parse_error))
                      (fun _ => ret segments)))
    else ret segments) w =
  (Return (segments ++ omap line_segment lines),
   add_log (flat_map line_warnings lines) w).
Proof.
  revert segments w. induction lines as [|line lines IH]; intros segments w.
  - simpl. by rewrite app_nil_r, add_log_nil.
  - rewrite omap_line_segment_cons. cbn [for_each flat_map].
    erewrite bind_return by apply parse_line_step.
    rewrite IH, add_log_add_log.
    destruct (line_segment line); [by rewrite <- app_assoc|done].
Qed.

Lemma parse_lines_eq lines w :
  LocalASRClient.parse_lines lines w =
  (Return (omap line_segment lines), add_log (flat_map line_warnings lines) w).
Proof. apply (parse_lines_from []). Qed.

Lemma parse_segments_eq stdout_text w :
  LocalASRClient.parse_segments stdout_text w =
  (Return (omap line_segment (split [LF] (strip stdout_text))),
   add_log (flat_map line_warnings (split [LF] (strip stdout_text))) w).
Proof. apply parse_lines_eq. Qed.

(** ** The local adapter, run symbolically *)

Lemma decode_stdout_eq h raw w :
  try_except (LocalASRClient.decode h raw)
    (fun e =>
       match e with
       | UnicodeDecodeError =>
           Some (let stdout_text := decode_utf8_ignore h raw in
                 bind (logger WARNING StdoutNotUtf8) (fun _ => ret stdout_text))
       | _ => None
       end) w =
  (Return (decode_lossy h raw),
   add_log match decode_utf8 h raw with
           | Some _ => []
           | None => [(WARNING, StdoutNotUtf8)]
           end w).
Proof.
  unfold try_except, LocalASRClient.decode, lift, decode_lossy.
  destruct (decode_utf8 h raw); [by rewrite add_log_nil|done].
Qed.

Lemma decode_stderr_eq h raw w :
  try_except (LocalASRClient.decode h raw)
    (fun e =>
       match e with
       | UnicodeDecodeError => Some (ret (decode_utf8_ignore h raw))
       | _ => None
       end) w =
  (Return (decode_lossy h raw), w).
Proof.
  unfold try_except, LocalASRClient.decode, lift, decode_lossy.
  by destruct (decode_utf8 h raw).
Qed.

Lemma when_stderr_eq stderr_text w :
  when (negb (bool_decide (stderr_text = [])))
    (logger INFO (StderrDecoded (take 500 stderr_text))) w =
  (Return tt,
   add_log match stderr_text with
           | [] => []
           | _ :: _ => [(INFO, StderrDecoded (take 500 stderr_text))]
           end w).
Proof.
  destruct stderr_text; simpl; [by rewrite add_log_nil|done].
Qed.

(** The part of [recognize_audio] before the [try] block. *)
Lemma launch_env_eq h self audio_path w :
  bind environ_copy (fun env =>
    match existing_lib_dirs h self w with
    | _ :: _ =>
        let lib_path := join (py ":") (existing_lib_dirs h self w) in
        let existing_dyld := default [] (env !! py "DYLD_LIBRARY_PATH") in
        let env :=
          match existing_dyld with
          | _ :: _ =>
              <[py "DYLD_LIBRARY_PATH" := lib_path ++ py ":" ++ existing_dyld]> env
          | [] => <[py "DYLD_LIBRARY_PATH" := lib_path]> env
          end in
        bind (logger INFO (SettingDyldLibraryPath
                             (default [] (env !! py "DYLD_LIBRARY_PATH"))))
             (fun _ => ret env)
    | [] => ret env
    end)
    (add_log [(INFO, ExecutingCommand (join (py " ") (command_of self audio_path)))] w)
  = (Return (child_env h self w), add_log (launch_log h self audio_path w) w).
Proof.
  unfold bind at 1, environ_copy, launch_log, child_env, augmented.
  cbn [environ add_log].
  destruct (existing_lib_dirs h self w) as [|d dirs] eqn:Hdirs; [done|].
  cbn zeta. unfold bind, logger, ret. rewrite add_log_add_log.
  fold DYLD_LIBRARY_PATH.
  destruct (environ w !! DYLD_LIBRARY_PATH) as [[|c prior]|]; done.
Qed.

Lemma recognize_audio_eq h self audio_path w :
  LocalASRClient.recognize_audio h self audio_path w =
  let w1 := launched h self audio_path w in
  match execute h (command_of self audio_path) (child_env h self w) with
  | NoSuchExecutable =>
      (Return None,
       add_log [(ERROR, CommandNotFound (LocalASRClient.whisper_cli_path self))] w1)
  | LaunchFault => (Return None, add_log [(ERROR, UnknownError OSError)] w1)
  | Runs elapsed_ms rc out err =>
      if outlives 120 elapsed_ms
      then (Return None, add_log [(ERROR, CommandTimedOut)] w1)
      else after_exit h audio_path rc out err w1
  end.
Proof.
  unfold LocalASRClient.recognize_audio.
  erewrite bind_return by reflexivity.
  cbv zeta.
  erewrite bind_return by apply existing_eq.
  cbn [files add_log].
  fold (command_of self audio_path).
  fold (candidate_lib_dirs h self).
  fold (existing_lib_dirs h self w).
  rewrite bind_assoc.
  erewrite bind_return by apply launch_env_eq.
  unfold launched. cbv zeta.
  set (w0 := add_log (launch_log h self audio_path w) w).
  unfold try_except. unfold bind at 1. unfold subprocess_run.
  fold (the_run_call h self audio_path w).
  destruct (execute h (command_of self audio_path) (child_env h self w))
    as [| |elapsed_ms rc out err]; [done..|].
  destruct (outlives 120 elapsed_ms); [done|].
  set (w1 := add_run_call _ w0).
  cbn [returncode stdout stderr].
  do 3 erewrite bind_return by reflexivity.
  erewrite bind_return by apply decode_stdout_eq.
  erewrite bind_return by apply decode_stderr_eq.
  erewrite bind_return by apply parse_segments_eq.
  erewrite bind_return by apply when_stderr_eq.
  unfold after_exit. cbv zeta.
  destruct (rc =? 0)%Z.
  - erewrite bind_return by reflexivity.
    erewrite bind_return by apply parse_segments_eq.
    erewrite bind_return by reflexivity.
    unfold ret, exit_log. rewrite !add_log_add_log.
    do 2 f_equal. cbn [app]. by rewrite <- !app_assoc.
  - do 2 erewrite bind_return by reflexivity.
    unfold ret, exit_log. rewrite !add_log_add_log.
    do 2 f_equal. cbn [app]. by rewrite <- !app_assoc.
Qed.

Lemma recognize_audio_world h self audio_path w :
  exists entries,
    snd (LocalASRClient.recognize_audio h self audio_path w) =
    add_log entries (launched h self audio_path w).
Proof.
  rewrite recognize_audio_eq. cbv zeta.
  destruct (execute h _ _) as [| |elapsed_ms rc out err]; [by eexists..|].
  destruct (outlives 120 elapsed_ms); [by eexists|].
  unfold after_exit. destruct (rc =? 0)%Z; by eexists.
Qed.

Lemma recognize_audio_run_calls h self audio_path w :
  run_calls (snd (LocalASRClient.recognize_audio h self audio_path w)) =
  run_calls w ++ [the_run_call h self audio_path w].
Proof.
  destruct (recognize_audio_world h self audio_path w) as [entries ->]. done.
Qed.

Lemma recognize_audio_environ h self audio_path w :
  environ (snd (LocalASRClient.recognize_audio h self audio_path w)) = environ w.
Proof.
  destruct (recognize_audio_world h self audio_path w) as [entries ->]. done.
Qed.

Lemma recognize_audio_files h self audio_path w :
  files (snd (LocalASRClient.recognize_audio h self audio_path w)) = files w.
Proof.
  destruct (recognize_audio_world h self audio_path w) as [entries ->]. done.
Qed.

Lemma augmented_other dirs env k :
  k <> DYLD_LIBRARY_PATH -> augmented dirs env !! k = env !! k.
Proof.
  intros Hk. unfold augmented. destruct dirs; [done|].
  destruct (env !! DYLD_LIBRARY_PATH) as [[|c prior]|];
    by rewrite lookup_insert_ne.
Qed.

Example example_child_env :
  child_env (example_host NoSuchExecutable RequestFails) example_client
    example_world !! DYLD_LIBRARY_PATH =
  Some (py "/opt/whisper.cpp/build/src:/opt/whisper.cpp/build/ggml/src:/usr/local/lib").
Proof. vm_compute. reflexivity. Qed.

(** ** Claims about the local adapter *)

(** C1 (the code departs from the claim).  The claim: for an audio path that
    does not exist on disk, [recognize_audio] of the local adapter fails and
    the external process is never invoked.  The code has no existence check:
    [subprocess.run] is called with [-f audio_path] whether or not the path
    exists, and when the executable then exits with code 0 the call returns
    a success result. *)
Theorem C1_missing_audio_is_passed_to_the_process
    (h : host) (self : LocalASRClient.t) (audio_path : str) (w : world) :
  files w !! audio_path = None ->
  let '(returned, w') := LocalASRClient.recognize_audio h self audio_path w in
  run_calls w' = run_calls w ++ [the_run_call h self audio_path w] /\
  audio_path ∈ run_command (the_run_call h self audio_path w) /\
  forall elapsed_ms out err,
    execute h (command_of self audio_path) (child_env h self w) =
      Runs elapsed_ms 0 out err ->
    outlives 120 elapsed_ms = false ->
    returned = Return (Some (success_result h audio_path out)).
Proof.
  intros _.
  pose proof (recognize_audio_run_calls h self audio_path w) as Hcalls.
  pose proof (recognize_audio_eq h self audio_path w) as Heq.
  destruct (LocalASRClient.recognize_audio h self audio_path w) as [returned w'].
  split_and!; [done|set_solver|].
  intros elapsed_ms out err Hexec Hlive. cbv zeta in Heq.
  rewrite Hexec, Hlive in Heq. unfold after_exit in Heq. simpl in Heq. congruence.
Qed.

Lemma C1_missing_audio_witness :
  let '(returned, w') :=
    LocalASRClient.recognize_audio
      (example_host (Runs (Some 900) 0 [] []) RequestFails)
      example_client (py "/tmp/missing.wav") example_world in
  run_calls w' =
    run_calls example_world ++
    [the_run_call (example_host (Runs (Some 900) 0 [] []) RequestFails)
       example_client (py "/tmp/missing.wav") example_world] /\
  py "/tmp/missing.wav" ∈
    run_command
      (the_run_call (example_host (Runs (Some 900) 0 [] []) RequestFails)
         example_client (py "/tmp/missing.wav") example_world) /\
  forall elapsed_ms out err,
    execute (example_host (Runs (Some 900) 0 [] []) RequestFails)
      (command_of example_client (py "/tmp/missing.wav"))
      (child_env (example_host (Runs (Some 900) 0 [] []) RequestFails)
         example_client example_world) =
      Runs elapsed_ms 0 out err ->
    outlives 120 elapsed_ms = false ->
    returned =
      Return (Some (success_result
                      (example_host (Runs (Some 900) 0 [] []) RequestFails)
                      (py "/tmp/missing.wav") out)).
Proof.
  apply (C1_missing_audio_is_passed_to_the_process
           (example_host (Runs (Some 900) 0 [] []) RequestFails)
           example_client (py "/tmp/missing.wav") example_world).
  vm_compute. reflexivity.
Defined.

(** C6, as amended.  The claim: after a non-zero exit [recognize_audio]
    returns a failure whose payload is the first 1000 characters of the
    decoded standard error.  The code signals every failure by the value
    [None], which holds no payload.  What holds: when the external process
    completes with a non-zero exit code, [recognize_audio] of the local
    adapter returns [None], with no segments or other partial result, and the
    last two records it logs are errors: the exit code, and the first 1000
    characters of the decoded standard error. *)
Theorem C6_nonzero_exit_is_recognition_failure
    (h : host) (self : LocalASRClient.t) (audio_path : str) (w : world)
    (elapsed_ms : option N) (rc : Z) (out err : bytes) :
  execute h (command_of self audio_path) (child_env h self w) =
    Runs elapsed_ms rc out err ->
  outlives 120 elapsed_ms = false ->
  rc <> 0%Z ->
  let '(returned, w') := LocalASRClient.recognize_audio h self audio_path w in
  returned = Return None /\
  exists earlier,
    log w' = earlier ++ [(ERROR, CommandFailed rc);
                         (ERROR, StderrDetail (take 1000 (decode_lossy h err)))].
Proof.
  intros Hexec Hlive Hrc. rewrite recognize_audio_eq. cbv zeta.
  rewrite Hexec, Hlive. unfold after_exit.
  apply Z.eqb_neq in Hrc. rewrite Hrc. split; [done|].
  cbn [log add_log]. eexists. by rewrite app_assoc.
Qed.

Lemma C6_nonzero_exit_witness :
  let '(returned, w') :=
    LocalASRClient.recognize_audio
      (example_host (Runs (Some 2500) 1 [] (py "model load error")) RequestFails)
      example_client (py "/tmp/lecture.wav") example_world in
  returned = Return None /\
  exists earlier,
    log w' = earlier ++ [(ERROR, CommandFailed 1);
                         (ERROR, StderrDetail (py "model load error"))].
Proof.
  apply (C6_nonzero_exit_is_recognition_failure
           (example_host (Runs (Some 2500) 1 [] (py "model load error")) RequestFails)
           example_client (py "/tmp/lecture.wav") example_world
           (Some 2500) 1%Z [] (py "model load error"));
    [reflexivity | reflexivity | lia].
Defined.

(** C6, the counterexample.  Exit code 1 with the standard error
    ["model load error"], and with ["out of memory"]: the value returned is
    [None] both times, so it does not carry the text. *)
Lemma C6_counterexample :
  fst (LocalASRClient.recognize_audio
         (example_host (Runs (Some 2500) 1 [] (py "model load error")) RequestFails)
         example_client (py "/tmp/lecture.wav") example_world) = Return None /\
  fst (LocalASRClient.recognize_audio
         (example_host (Runs (Some 2500) 1 [] (py "out of memory")) RequestFails)
         example_client (py "/tmp/lecture.wav") example_world) = Return None /\
  take 1000 (decode_lossy
               (example_host (Runs (Some 2500) 1 [] (py "model load error"))
                  RequestFails)
               (py "model load error")) <>
  take 1000 (decode_lossy
               (example_host (Runs (Some 2500) 1 [] (py "out of memory"))
                  RequestFails)
               (py "out of memory")).
Proof.
  split_and!; [by rewrite recognize_audio_eq..|].
  vm_compute. discriminate.
Qed.

(** C7.  When the external process runs for more than 120 seconds (or never
    exits), [recognize_audio] of the local adapter returns the failure value
    [None] and reports the timeout; nothing of the child's output is
    returned.  The timeout handed to [subprocess.run] is 120 seconds. *)
Theorem C7_timeout_after_120_seconds
    (h : host) (self : LocalASRClient.t) (audio_path : str) (w : world)
    (elapsed_ms : option N) (rc : Z) (out err : bytes) :
  execute h (command_of self audio_path) (child_env h self w) =
    Runs elapsed_ms rc out err ->
  (elapsed_ms = None \/ exists ms, elapsed_ms = Some ms /\ 1000 * 120 < ms) ->
  let '(returned, w') := LocalASRClient.recognize_audio h self audio_path w in
  returned = Return None /\
  log w' = log w ++ launch_log h self audio_path w ++ [(ERROR, CommandTimedOut)] /\
  exists call,
    run_calls w' = run_calls w ++ [call] /\ run_timeout call = 120.
Proof.
  intros Hexec Hlong. rewrite recognize_audio_eq. cbv zeta. rewrite Hexec.
  assert (outlives 120 elapsed_ms = true) as ->.
  { destruct Hlong as [->|(ms & -> & Hms)]; [done|]. by apply N.ltb_lt. }
  split_and!; [done| |].
  - cbn [log add_log launched add_run_call]. by rewrite app_assoc.
  - by exists (the_run_call h self audio_path w).
Qed.

Lemma C7_timeout_witness :
  let '(returned, w') :=
    LocalASRClient.recognize_audio
      (example_host (Runs (Some 120001) 0 (py "[0 --> 1] late") []) RequestFails)
      example_client (py "/tmp/lecture.wav") example_world in
  returned = Return None /\
  log w' =
    log example_world ++
    launch_log
      (example_host (Runs (Some 120001) 0 (py "[0 --> 1] late") []) RequestFails)
      example_client (py "/tmp/lecture.wav") example_world ++
    [(ERROR, CommandTimedOut)] /\
  exists call,
    run_calls w' = run_calls example_world ++ [call] /\ run_timeout call = 120.
Proof.
  apply (C7_timeout_after_120_seconds
           (example_host (Runs (Some 120001) 0 (py "[0 --> 1] late") []) RequestFails)
           example_client (py "/tmp/lecture.wav") example_world
           (Some 120001) 0%Z (py "[0 --> 1] late") []);
    [reflexivity | right; exists 120001; split; [reflexivity | lia]].
Defined.

(** C10.  A call of [recognize_audio] on the local adapter leaves
    [os.environ] as it was.  The library-search augmentation goes into the
    copy that is handed to [subprocess.run]: the existing candidate
    directories, joined by colons, in front of the prior value of
    [DYLD_LIBRARY_PATH], every other variable kept.  A second call therefore
    finds the prior value that the first one found and hands the same
    environment to its child. *)
Theorem C10_environ_is_left_unchanged
    (h : host) (self : LocalASRClient.t) (audio_path next_path : str) (w : world) :
  let w' := snd (LocalASRClient.recognize_audio h self audio_path w) in
  let w'' := snd (LocalASRClient.recognize_audio h self next_path w') in
  environ w' = environ w /\
  (exists call,
     run_calls w' = run_calls w ++ [call] /\
     run_env call = augmented (existing_lib_dirs h self w) (environ w) /\
     forall k, k <> DYLD_LIBRARY_PATH -> run_env call !! k = environ w !! k) /\
  environ w' !! DYLD_LIBRARY_PATH = environ w !! DYLD_LIBRARY_PATH /\
  environ w'' = environ w /\
  (exists call',
     run_calls w'' = run_calls w' ++ [call'] /\
     run_env call' = augmented (existing_lib_dirs h self w) (environ w)).
Proof.
  cbv zeta.
  pose proof (recognize_audio_environ h self audio_path w) as Henv.
  pose proof (recognize_audio_files h self audio_path w) as Hfiles.
  pose proof (recognize_audio_run_calls h self audio_path w) as Hcalls.
  set (w' := snd (LocalASRClient.recognize_audio h self audio_path w)) in *.
  split_and!.
  - done.
  - exists (the_run_call h self audio_path w). split_and!; [done..|].
    intros k Hk. by apply augmented_other.
  - by rewrite Henv.
  - by rewrite recognize_audio_environ.
  - exists (the_run_call h self next_path w'). split.
    + apply recognize_audio_run_calls.
    + cbn [run_env the_run_call]. unfold child_env, existing_lib_dirs.
      by rewrite Henv, Hfiles.
Qed.

(** C8 (the code departs from the claim).  The claim: [process_video] of
    the local adapter extracts the audio, recognizes it and deletes the
    temporary file.  The method body is [pass]: whatever the video path and
    the extraction function, it returns [None] and leaves the world as it
    was, so nothing is extracted, recognized or deleted. *)
Theorem C8_local_process_video_is_a_stub
    (video_path : str) (extract_audio_func : option (str -> M (option str)))
    (w : world) :
  LocalASRClient.process_video video_path extract_audio_func w = (Return None, w).
Proof. reflexivity. Qed.

(** ** Claims about the remote adapter *)

Ltac run_remote :=
  unfold ASRClient.recognize_audio, ASRClient.requests_post,
    ASRClient.response_decode, bind, try_except, path_exists, open_rb, close,
    logger, lift, ret.

(** On every path other than a connection failure the upload handle is
    closed when the call returns. *)
Lemma remote_recognize_audio_closes_handle
    (h : host) (self : ASRClient.t) (audio_path : str) (w : world) :
  files w !! audio_path = Some RegularFile ->
  http_post h (recognize_url self) (basename audio_path) <> ConnectionFails ->
  next_handle w ∉ open_files (snd (ASRClient.recognize_audio h self audio_path w)).
Proof.
  intros Hfile Hpost. run_remote. unfold recognize_url in Hpost.
  rewrite bool_decide_true by done. cbn [negb]. rewrite Hfile.
  cbn [fst snd].
  destruct (http_post h _ _) as [r| |]; [|done|].
  - cbn [open_files add_log set_open_files next_handle].
    destruct (status_code r =? 200)%Z; [|set_solver].
    destruct (response_json r) as [result|]; [|set_solver].
    destruct (ASRClient.getitem result (py "filename")) as [name|[]];
      cbn [snd open_files add_log set_open_files next_handle]; set_solver.
  - cbn [open_files add_log set_open_files next_handle]. set_solver.
Qed.

(** The remote [recognize_audio] returns for every regular file, whatever
    the service does, and leaves the file system as it was. *)
Lemma remote_recognize_audio_returns
    (h : host) (self : ASRClient.t) (audio_path : str) (w : world) :
  files w !! audio_path = Some RegularFile ->
  exists result w',
    ASRClient.recognize_audio h self audio_path w = (Return result, w') /\
    files w' = files w.
Proof.
  intros Hfile. run_remote.
  rewrite bool_decide_true by done. cbn [negb]. rewrite Hfile.
  cbn [fst snd].
  destruct (http_post h _ _) as [r| |]; [|by eexists _, _..].
  destruct (status_code r =? 200)%Z; [|by eexists _, _].
  destruct (response_json r) as [result|]; [|by eexists _, _].
  destruct (ASRClient.getitem result (py "filename")) as [name|[]];
    by eexists _, _.
Qed.

(** The sibling of the stub: [process_video] of the remote adapter deletes
    the extracted file, whether recognition gave a result or [None]. *)
Lemma remote_process_video_cleans_up
    (h : host) (self : ASRClient.t) (video_path : str)
    (extract : str -> M (option str)) (w w1 : world) (c : char) (audio_path : str) :
  extract video_path w = (Return (Some (c :: audio_path)), w1) ->
  files w1 !! (c :: audio_path) = Some RegularFile ->
  exists result w',
    ASRClient.process_video h self video_path (Some extract) w =
      (Return result, w') /\
    files w' = delete (c :: audio_path) (files w1).
Proof.
  intros Hextract Hfile.
  destruct (remote_recognize_audio_returns h self (c :: audio_path) w1 Hfile)
    as (result & w2 & Hrec & Hfiles).
  unfold ASRClient.process_video. unfold try_except at 1.
  erewrite bind_return by exact Hextract. cbv beta iota.
  erewrite bind_return by exact Hrec.
  unfold bind at 1, path_exists. rewrite Hfiles.
  rewrite bool_decide_true by done.
  unfold when, bind, try_except, unlink, ret. rewrite Hfiles, Hfile.
  exists result, (set_files (delete (c :: audio_path) (files w1)) w2).
  done.
Qed.

(** C9 (the code departs from the claim).  The claim: the upload handle
    that [recognize_audio] of the remote adapter opens is closed before the
    call returns on every exit path, connection failure included.  The
    handler of [requests.exceptions.ConnectionError] logs and returns [None]
    without closing: after a connection failure the handle that the call
    opened is still open. *)
Theorem C9_connection_failure_leaves_the_handle_open
    (h : host) (self : ASRClient.t) (audio_path : str) (w : world) :
  files w !! audio_path = Some RegularFile ->
  http_post h (recognize_url self) (basename audio_path) = ConnectionFails ->
  let '(returned, w') := ASRClient.recognize_audio h self audio_path w in
  returned = Return None /\
  next_handle w ∈ open_files w' /\
  log w' = log w ++ [(INFO, Recognizing audio_path); (ERROR, CannotConnect)].
Proof.
  intros Hfile Hpost. run_remote. unfold recognize_url in Hpost.
  rewrite bool_decide_true by done. cbn [negb]. rewrite Hfile.
  cbn [fst snd].
  rewrite Hpost. cbn [open_files log add_log set_open_files next_handle].
  split_and!; [done|set_solver|by rewrite <- app_assoc].
Qed.

Lemma C9_connection_failure_witness :
  let '(returned, w') :=
    ASRClient.recognize_audio (example_host NoSuchExecutable ConnectionFails)
      example_remote (py "/tmp/lecture.wav") example_world in
  returned = Return None /\
  next_handle example_world ∈ open_files w' /\
  log w' = log example_world ++
           [(INFO, Recognizing (py "/tmp/lecture.wav")); (ERROR, CannotConnect)].
Proof.
  apply (C9_connection_failure_leaves_the_handle_open
           (example_host NoSuchExecutable ConnectionFails)
           example_remote (py "/tmp/lecture.wav") example_world);
    [vm_compute; reflexivity | reflexivity].
Defined.

(** ** Well-formed segment lines *)

Lemma partition_at_char c a b :
  c ∉ a -> partition_at [c] (a ++ [c] ++ b) = Some (a, b).
Proof.
  induction a as [|x a IH]; intros Hc.
  - cbn [app partition_at startswith length]. by rewrite N.eqb_refl.
  - cbn [app partition_at startswith].
    destruct (N.eqb_spec c x) as [->|_]; [set_solver|].
    cbn [andb]. cbn [app] in IH. rewrite IH; [done|set_solver].
Qed.

Lemma startswith_arrow_app s e :
  s <> [] ->
  startswith (py "-->") (s ++ py "-->" ++ e) = startswith (py "-->") s.
Proof.
  change (py "-->") with [45; 45; 62]. intros Hs.
  destruct s as [|a [|b [|c s]]]; [done|..]; cbn [app startswith].
  - by rewrite !andb_false_r.
  - by rewrite !andb_false_r.
  - done.
Qed.

Lemma contains_cons_false sub c s :
  contains sub (c :: s) = false ->
  startswith sub (c :: s) = false /\ contains sub s = false.
Proof. cbn [contains]. by intros [??]%orb_false_iff. Qed.

Lemma partition_at_arrow s e :
  contains (py "-->") s = false ->
  partition_at (py "-->") (s ++ py "-->" ++ e) = Some (s, e).
Proof.
  induction s as [|c s IH]; intros Hs.
  - cbn [app]. change (py "-->") with [45; 45; 62]. done.
  - apply contains_cons_false in Hs as [Hhere Hs].
    pose proof (startswith_arrow_app (c :: s) e) as Happ.
    rewrite Hhere in Happ. cbn [app] in *. cbn [partition_at].
    rewrite Happ by done. by rewrite IH.
Qed.

Lemma contains_app_l sub a b : contains sub a = true -> contains sub (a ++ b) = true.
Proof.
  induction a as [|c a IH]; cbn [contains app].
  - rewrite orb_false_r. destruct sub; [|done]. by destruct b.
  - intros [H|H]%orb_true_iff; apply orb_true_iff.
    + left. apply startswith_inv in H.
      set (r := drop (length sub) (c :: a)) in H. clearbody r.
      change (c :: a ++ b) with ((c :: a) ++ b).
      by rewrite H, <- app_assoc, startswith_app.
    + right. by apply IH.
Qed.

Lemma contains_app_r sub a b : contains sub b = true -> contains sub (a ++ b) = true.
Proof.
  intros H. induction a as [|c a IH]; [done|].
  cbn [contains app]. rewrite IH. apply orb_true_r.
Qed.

Lemma contains_here sub a b : contains sub (a ++ sub ++ b) = true.
Proof.
  apply contains_app_r. destruct (sub ++ b) eqn:E; cbn [contains];
    by rewrite <- E, startswith_app.
Qed.

Lemma lstrip_by_app p a c b :
  p c = false -> lstrip_by p (a ++ c :: b) = lstrip_by p a ++ c :: b.
Proof.
  intros Hc. induction a as [|x a IH]; cbn [app lstrip_by].
  - by rewrite Hc.
  - by destruct (p x).
Qed.

Lemma rstrip_by_snoc_app p a c b :
  p c = false -> rstrip_by p ((a ++ [c]) ++ b) = (a ++ [c]) ++ rstrip_by p b.
Proof.
  intros Hc. unfold rstrip_by. rewrite !rev_app_distr. cbn [rev app].
  rewrite lstrip_by_app by done. rewrite rev_app_distr. cbn [rev app].
  by rewrite rev_involutive.
Qed.

Lemma rstrip_by_prefix p s : exists suf, s = rstrip_by p s ++ suf.
Proof.
  unfold rstrip_by. destruct (lstrip_by_suffix p (rev s)) as [pre H].
  exists (rev pre). rewrite <- rev_app_distr, <- H. by rewrite rev_involutive.
Qed.

Lemma contains_suffix_false sub pre s :
  contains sub (pre ++ s) = false -> contains sub s = false.
Proof.
  intros H. destruct (contains sub s) eqn:E; [|done].
  by rewrite contains_app_r in H.
Qed.

Lemma contains_prefix_false sub s suf :
  contains sub (s ++ suf) = false -> contains sub s = false.
Proof.
  intros H. destruct (contains sub s) eqn:E; [|done].
  by rewrite contains_app_l in H.
Qed.

Lemma contains_char c s : contains [c] s = false -> c ∉ s.
Proof.
  induction s as [|x s IH]; [set_solver|].
  intros [Hx Hs]%contains_cons_false. cbn [startswith] in Hx.
  rewrite andb_true_r in Hx. apply N.eqb_neq in Hx.
  apply not_elem_of_cons. split; [done|by apply IH].
Qed.

Lemma partition_at_bracket start_time end_time text :
  contains (py "]") start_time = false ->
  contains (py "]") end_time = false ->
  partition_at (py "]")
    (py "[" ++ start_time ++ py "-->" ++ end_time ++ py "]" ++ text) =
  Some (py "[" ++ start_time ++ py "-->" ++ end_time, text).
Proof.
  intros Hs%contains_char He%contains_char.
  replace (py "[" ++ start_time ++ py "-->" ++ end_time ++ py "]" ++ text)
    with ((py "[" ++ start_time ++ py "-->" ++ end_time) ++ [93] ++ text)
    by (by rewrite <- !app_assoc).
  apply partition_at_char.
  change (py "[") with [91]. change (py "-->") with [45; 45; 62].
  rewrite !elem_of_app, !elem_of_cons, elem_of_nil. naive_solver lia.
Qed.

Lemma parse_line_well_formed start_time end_time text :
  well_formed start_time end_time ->
  parse_line (segment_line start_time end_time text) =
  Return {| start := strip (lstrip_by is_bracket start_time);
            end_ := strip (rstrip_by is_bracket end_time);
            text := strip text |}.
Proof.
  intros (Hs & He & Has & Hae). unfold parse_line, segment_line, split1.
  rewrite partition_at_bracket by done.
  cbn [unpack2 obind].
  assert (strip_chars (py "[") (py "[" ++ start_time ++ py "-->" ++ end_time) =
          lstrip_by is_bracket start_time ++ py "-->" ++
          rstrip_by is_bracket end_time) as ->.
  { unfold strip_chars, strip_by. fold is_bracket.
    change (py "[") with [91]. change (py "-->") with [45; 45; 62].
    cbn [app lstrip_by].
    change (is_bracket 91) with true. cbn iota.
    rewrite lstrip_by_app by done.
    replace (lstrip_by is_bracket start_time ++ 45 :: 45 :: 62 :: end_time)
      with (((lstrip_by is_bracket start_time ++ [45; 45]) ++ [62]) ++ end_time)
      by (by rewrite <- !app_assoc).
    rewrite rstrip_by_snoc_app by done. by rewrite <- !app_assoc. }
  destruct (lstrip_by_suffix is_bracket start_time) as [pre Hpre].
  destruct (rstrip_by_prefix is_bracket end_time) as [suf Hsuf].
  rewrite Hpre in Has. apply contains_suffix_false in Has.
  rewrite Hsuf in Hae. apply contains_prefix_false in Hae.
  rewrite split_unfold by done. rewrite partition_at_arrow by done.
  rewrite split_unfold by done.
  apply partition_at_contains in Hae. rewrite Hae. done.
Qed.

Lemma spec_parse_line_well_formed start_time end_time text :
  well_formed start_time end_time ->
  spec_parse_line (segment_line start_time end_time text) =
  Some {| start := strip start_time;
          end_ := strip end_time;
          text := strip text |}.
Proof.
  intros (Hs & He & Has & Hae). unfold spec_parse_line, segment_line.
  rewrite partition_at_bracket by done.
  change (py "[" ++ start_time ++ py "-->" ++ end_time)
    with (91 :: start_time ++ py "-->" ++ end_time).
  cbv beta iota. change (91 =? 91) with true. cbv iota.
  by rewrite partition_at_arrow.
Qed.

Lemma is_segment_line_well_formed start_time end_time text :
  is_segment_line (segment_line start_time end_time text) = true.
Proof.
  unfold is_segment_line, segment_line. apply andb_true_iff. split.
  - apply startswith_app.
  - apply contains_app_r, contains_app_r, contains_app_l.
    rewrite <- (app_nil_r (py "-->")). apply (contains_here _ []).
Qed.

Lemma startswith_app_l sep a b :
  startswith sep a = true -> startswith sep (a ++ b) = true.
Proof.
  intros H. apply startswith_inv in H.
  set (r := drop (length sep) a) in H. clearbody r.
  by rewrite H, <- app_assoc, startswith_app.
Qed.

Lemma partition_at_first sep s a b :
  sep <> [] -> partition_at sep s = Some (a, b) -> contains sep a = false.
Proof.
  intros Hsep. revert a. induction s as [|x s IH]; intros a; cbn [partition_at].
  - destruct (startswith sep []); [|done]. intros [= <- _]. by destruct sep.
  - destruct (startswith sep (x :: s)) eqn:Hx.
    { intros [= <- _]. by destruct sep. }
    destruct (partition_at sep s) as [[a' b']|] eqn:Hs; [|done].
    intros [= <- <-]. cbn [contains]. rewrite (IH a' eq_refl), orb_false_r.
    destruct (startswith sep (x :: a')) eqn:Ha; [|done].
    apply partition_at_sound in Hs. rewrite Hs in Hx.
    pose proof (startswith_app_l sep (x :: a') (sep ++ b') Ha) as Hx'.
    cbn [app] in Hx'. congruence.
Qed.

Lemma contains_char_iff c s : contains [c] s = false <-> c ∉ s.
Proof.
  split; [apply contains_char|].
  induction s as [|x s IH]; [done|].
  intros [Hx Hs]%not_elem_of_cons. cbn [contains startswith].
  rewrite (IH Hs), andb_true_r, orb_false_r. by apply N.eqb_neq.
Qed.

Lemma lstrip_by_decompose p s :
  exists pre, s = pre ++ lstrip_by p s /\ forallb p pre = true.
Proof.
  induction s as [|c s (pre & IH & Hpre)]; cbn [lstrip_by]; [by exists []|].
  destruct (p c) eqn:Hc; [|by exists []].
  exists (c :: pre). cbn [app forallb]. rewrite Hc, Hpre, <- IH. done.
Qed.

Lemma forallb_rev (p : char -> bool) l : forallb p (rev l) = forallb p l.
Proof.
  induction l as [|c l IH]; [done|]. cbn [rev forallb].
  rewrite forallb_app, IH. cbn [forallb]. rewrite andb_true_r. apply andb_comm.
Qed.

Lemma rstrip_by_decompose p s :
  exists suf, s = rstrip_by p s ++ suf /\ forallb p suf = true.
Proof.
  unfold rstrip_by. destruct (lstrip_by_decompose p (rev s)) as (pre & H & Hpre).
  exists (rev pre). split.
  - by rewrite <- rev_app_distr, <- H, rev_involutive.
  - by rewrite forallb_rev.
Qed.

Lemma contains_arrow_after_brackets pre s :
  forallb is_bracket pre = true ->
  contains (py "-->") s = false -> contains (py "-->") (pre ++ s) = false.
Proof.
  intros Hpre Hs. induction pre as [|c pre IH]; [done|].
  cbn [forallb] in Hpre. apply andb_true_iff in Hpre as [Hc Hpre].
  cbn [app contains]. rewrite (IH Hpre), orb_false_r.
  change (py "-->") with [45; 45; 62]. cbn [startswith].
  destruct (N.eqb_spec 45 c) as [<-|]; done.
Qed.

Lemma startswith_arrow_before_brackets s suf :
  forallb is_bracket suf = true -> s <> [] ->
  startswith (py "-->") (s ++ suf) = startswith (py "-->") s.
Proof.
  change (py "-->") with [45; 45; 62]. intros Hsuf Hs.
  destruct s as [|a [|b [|c s]]]; [done|..]; cbn [app startswith]; [| |done].
  - destruct suf as [|x [|y suf]]; [by rewrite !andb_false_r..|].
    cbn [forallb] in Hsuf. apply andb_true_iff in Hsuf as [Hx _].
    destruct (N.eqb_spec 45 x) as [<-|]; [done|]. by rewrite !andb_false_r.
  - destruct suf as [|x suf]; [done|].
    cbn [forallb] in Hsuf. apply andb_true_iff in Hsuf as [Hx _].
    destruct (N.eqb_spec 62 x) as [<-|]; [done|]. by rewrite !andb_false_r.
Qed.

Lemma contains_arrow_before_brackets s suf :
  forallb is_bracket suf = true ->
  contains (py "-->") s = false -> contains (py "-->") (s ++ suf) = false.
Proof.
  intros Hsuf. induction s as [|c s IH]; intros Hs.
  - rewrite <- (app_nil_r ([] ++ suf)). by apply contains_arrow_after_brackets.
  - apply contains_cons_false in Hs as [Hhere Hs].
    pose proof (startswith_arrow_before_brackets (c :: s) suf Hsuf) as Happ.
    cbn [app contains] in *. rewrite Happ by done.
    by rewrite Hhere, (IH Hs).
Qed.

(** A line that parses has the form of [segment_line]. *)
Lemma parse_line_inv line parsed :
  startswith (py "[") line = true ->
  parse_line line = Return parsed ->
  exists start_time end_time text,
    line = segment_line start_time end_time text /\
    well_formed start_time end_time.
Proof.
  intros Hopen Hparse. unfold parse_line, split1 in Hparse.
  destruct (partition_at (py "]") line) as [[time_part text]|] eqn:Hcut; [|done].
  cbn [unpack2 obind] in Hparse.
  assert (contains (py "]") time_part = false) as Hclose
    by (by apply (partition_at_first _ line _ text)).
  apply partition_at_sound in Hcut.
  destruct (split (py "-->") (strip_chars (py "[") time_part))
    as [|st [|en [|? ?]]] eqn:Hsplit; [done..| |done].
  clear Hparse. rewrite split_unfold in Hsplit by done.
  destruct (partition_at (py "-->") (strip_chars (py "[") time_part))
    as [[st' rest]|] eqn:Harrow; [|done].
  injection Hsplit as -> Hrest.
  assert (contains (py "-->") st = false) as Hst
    by (by eapply partition_at_first).
  apply partition_at_sound in Harrow.
  rewrite split_unfold in Hrest by done.
  destruct (partition_at (py "-->") rest) as [[? ?]|] eqn:Hen.
  { injection Hrest as _ Hnil. by apply split_not_nil in Hnil. }
  injection Hrest as ->. apply partition_at_contains in Hen.
  unfold strip_chars, strip_by in Harrow. fold is_bracket in Harrow.
  destruct (lstrip_by_decompose is_bracket time_part) as (pre & Hpre & Hpre_b).
  destruct (rstrip_by_decompose is_bracket (lstrip_by is_bracket time_part))
    as (suf & Hsuf & Hsuf_b).
  rewrite Harrow in Hsuf. rewrite Hsuf in Hpre.
  destruct pre as [|c pre].
  { exfalso. cbn [app] in Hpre. rewrite <- Hpre in Hsuf.
    destruct time_part as [|c0 time_part].
    - by destruct st.
    - rewrite Hcut in Hopen. change (py "[") with [91] in Hopen.
      cbn [app startswith] in Hopen. rewrite andb_true_r in Hopen.
      apply N.eqb_eq in Hopen as <-. cbn [lstrip_by] in Hsuf.
      change (is_bracket 91) with true in Hsuf. cbn iota in Hsuf.
      pose proof (lstrip_by_length is_bracket time_part) as Hlen.
      rewrite Hsuf in Hlen. cbn [length] in Hlen. lia. }
  cbn [forallb] in Hpre_b. apply andb_true_iff in Hpre_b as [Hc Hpre_b].
  assert (c = 91) as ->.
  { unfold is_bracket in Hc. change (py "[") with [91] in Hc.
    cbn [existsb] in Hc. rewrite orb_false_r in Hc. by apply N.eqb_eq. }
  exists (pre ++ st), (en ++ suf), text. split.
  - rewrite Hcut, Hpre. unfold segment_line. change (py "[") with [91].
    cbn [app]. by rewrite <- !app_assoc.
  - apply contains_char_iff in Hclose. rewrite Hpre in Hclose.
    change (py "-->") with [45; 45; 62] in Hclose.
    rewrite !elem_of_app, !elem_of_cons in Hclose.
    unfold well_formed. split_and!.
    + apply contains_char_iff. rewrite elem_of_app. naive_solver.
    + apply contains_char_iff. rewrite elem_of_app. naive_solver.
    + by apply contains_arrow_after_brackets.
    + by apply contains_arrow_before_brackets.
Qed.

Lemma recognize_audio_success h self audio_path w elapsed_ms out err :
  execute h (command_of self audio_path) (child_env h self w) =
    Runs elapsed_ms 0 out err ->
  outlives 120 elapsed_ms = false ->
  fst (LocalASRClient.recognize_audio h self audio_path w) =
  Return (Some (success_result h audio_path out)).
Proof.
  intros Hexec Hlive. rewrite recognize_audio_eq. cbv zeta.
  by rewrite Hexec, Hlive.
Qed.

Lemma escapes_complete_check s :
  escapes_complete_b s = true -> escapes_complete s.
Proof.
  induction s as [|c s IH]; intros H pre suf Heq.
  - by destruct pre.
  - cbn [escapes_complete_b] in H. apply andb_true_iff in H as [Hc Hs].
    destruct pre as [|x pre]; cbn [app] in Heq.
    + injection Heq as -> ->. rewrite N.eqb_refl in Hc.
      destruct (escape_tail (ESC :: suf)) as [rest|] eqn:E; [|done].
      apply escape_tail_match in E as (m & -> & Hm). eauto.
    + injection Heq as -> ->. by apply (IH Hs pre suf).
Qed.

(** ** Claims about the segment parser *)

(** C2, as amended.  The claim: every trimmed line that starts with ['[']
    and contains ['-->'] yields exactly one segment.  The code skips such a
    line when its structure does not parse, and it strips every leading and
    trailing ['['] of the time-range part, not one leading character.  What
    holds: the segments are what the lines of the stripped text yield, one at
    most for each line, in the order of the lines, which is their order in
    the text; a line [[<start> --> <end>]<text>] whose time stamps are free
    of [']'] and ['-->'] yields one segment, with the time stamps stripped
    of brackets at the outer ends and all three fields trimmed; where no
    bracket is there to strip, that is the segment section 4.3 describes;
    no line of another form parses; and scenario 1 yields its single
    segment. *)
Theorem C2_segment_lines_yield_segments_in_order :
  (forall (stdout_text : str) (w : world),
     fst (LocalASRClient.parse_segments stdout_text w) =
       Return (omap line_segment (split [LF] (strip stdout_text))) /\
     join [LF] (split [LF] (strip stdout_text)) = strip stdout_text) /\
  (forall start_time end_time text : str,
     well_formed start_time end_time ->
     is_segment_line (segment_line start_time end_time text) = true /\
     parse_line (segment_line start_time end_time text) =
       Return {| start := strip (lstrip_by is_bracket start_time);
                 end_ := strip (rstrip_by is_bracket end_time);
                 text := strip text |} /\
     (lstrip_by is_bracket start_time = start_time ->
      rstrip_by is_bracket end_time = end_time ->
      parse_line (segment_line start_time end_time text) =
        Return {| start := strip start_time;
                  end_ := strip end_time;
                  text := strip text |} /\
      spec_parse_line (segment_line start_time end_time text) =
        Some {| start := strip start_time;
                end_ := strip end_time;
                text := strip text |})) /\
  (forall (line : str) (parsed : segment),
     startswith (py "[") line = true ->
     parse_line line = Return parsed ->
     exists start_time end_time text,
       line = segment_line start_time end_time text /\
       well_formed start_time end_time) /\
  (forall (h : host) (self : LocalASRClient.t) (audio_path : str) (w : world)
          (elapsed_ms : option N) (out err : bytes),
     execute h (command_of self audio_path) (child_env h self w) =
       Runs elapsed_ms 0 out err ->
     outlives 120 elapsed_ms = false ->
     decode_lossy h out = py "[00:00:00.000 --> 00:00:02.500]  Hello world" ++ [LF] ->
     exists result,
       fst (LocalASRClient.recognize_audio h self audio_path w) =
         Return (Some result) /\
       LocalASRClient.segments result =
         [{| start := py "00:00:00.000";
             end_ := py "00:00:02.500";
             text := py "Hello world" |}]).
Proof.
  split_and!.
  - intros stdout_text w. split.
    + by rewrite parse_segments_eq.
    + by apply join_split.
  - intros start_time end_time text Hwf. split_and!.
    + apply is_segment_line_well_formed.
    + by apply parse_line_well_formed.
    + intros Hl Hr. rewrite parse_line_well_formed by done.
      rewrite spec_parse_line_well_formed by done. by rewrite Hl, Hr.
  - apply parse_line_inv.
  - intros h self audio_path w elapsed_ms out err Hexec Hlive Hout.
    eexists. split; [by eapply recognize_audio_success|].
    unfold success_result. cbn [LocalASRClient.segments]. rewrite Hout.
    vm_compute. reflexivity.
Qed.

Lemma C2_segment_line_witness :
  parse_line (segment_line (py "00:00:00.000 ") (py " 00:00:02.500")
                (py "  Hello world")) =
  Return {| start := py "00:00:00.000";
            end_ := py "00:00:02.500";
            text := py "Hello world" |}.
Proof.
  destruct C2_segment_lines_yield_segments_in_order as (_ & Hline & _ & _).
  destruct (Hline (py "00:00:00.000 ") (py " 00:00:02.500") (py "  Hello world"))
    as (_ & _ & Hspec).
  - repeat split; vm_compute; reflexivity.
  - destruct Hspec as [Hcode _]; [vm_compute; reflexivity..|].
    exact Hcode.
Defined.

(** C2, the counterexample.  The trimmed line ["[a --> b"] starts with ['[']
    and contains ['-->'], and yields no segment; and on ["[[a --> b] t"] the
    code yields the start ["a"] where the procedure of the claim yields
    ["[a"]. *)
Lemma C2_counterexample :
  is_segment_line (strip (py "[a --> b")) = true /\
  (forall w, fst (LocalASRClient.parse_segments (py "[a --> b") w) = Return []) /\
  parse_line (py "[[a --> b] t") =
    Return {| start := py "a"; end_ := py "b"; text := py "t" |} /\
  spec_parse_line (py "[[a --> b] t") =
    Some {| start := py "[a"; end_ := py "b"; text := py "t" |}.
Proof.
  split_and!; [vm_compute; reflexivity| |vm_compute; reflexivity..].
  intros w. rewrite parse_segments_eq. cbn [fst]. f_equal.
Qed.

(** C3.  A line of the text that has the form of a segment line and does
    not parse, or that has not the form of a segment line, adds nothing and
    stops nothing.  The segments returned are those that the [try] block
    builds for the lines before it, followed by those that it builds for the
    lines after it: every line before or after it that has the form of a
    segment line and parses contributes its segment, and every segment
    comes from such a line.  A line that does not parse leaves a warning in
    the log.  The loop never raises, and when the process exits with code 0
    [recognize_audio] returns a result with these segments whatever the
    lines are. *)
Theorem C3_unparsable_lines_are_skipped
    (stdout_text : str) (before after : list str) (bad : str) (w : world) :
  split [LF] (strip stdout_text) = before ++ bad :: after ->
  malformed bad \/ is_segment_line (strip bad) = false ->
  let segments := omap line_segment before ++ omap line_segment after in
  fst (LocalASRClient.parse_segments stdout_text w) = Return segments /\
  (forall (line : str) (parsed : segment),
     line ∈ before ++ after ->
     is_segment_line (strip line) = true ->
     parse_line (strip line) = Return parsed ->
     parsed ∈ segments) /\
  (forall parsed : segment,
     parsed ∈ segments ->
     exists line,
       line ∈ before ++ after /\
       is_segment_line (strip line) = true /\
       parse_line (strip line) = Return parsed) /\
  (malformed bad ->
   exists parse_error,
     (WARNING, LineSkipped (take 100 (strip bad)) parse_error) ∈
       log (snd (LocalASRClient.parse_segments stdout_text w))) /\
  forall (h : host) (self : LocalASRClient.t) (audio_path : str) (w0 : world)
         (elapsed_ms : option N) (out err : bytes),
    execute h (command_of self audio_path) (child_env h self w0) =
      Runs elapsed_ms 0 out err ->
    outlives 120 elapsed_ms = false ->
    sanitize (decode_lossy h out) = stdout_text ->
    exists result,
      fst (LocalASRClient.recognize_audio h self audio_path w0) =
        Return (Some result) /\
      LocalASRClient.segments result = segments.
Proof.
  intros Hlines Hbad. cbv zeta.
  assert (line_segment bad = None) as Hnone.
  { unfold line_segment. destruct Hbad as [[-> [e ->]]| ->]; done. }
  assert (omap line_segment (split [LF] (strip stdout_text)) =
          omap line_segment before ++ omap line_segment after) as Hsegs.
  { rewrite Hlines, omap_app, omap_line_segment_cons. by rewrite Hnone. }
  rewrite <- omap_app.
  split_and!.
  - rewrite parse_segments_eq. cbn [fst]. by rewrite Hsegs, omap_app.
  - intros line parsed Hin Hform Hparse.
    apply list_elem_of_omap. exists line. split; [done|].
    unfold line_segment. by rewrite Hform, Hparse.
  - intros parsed Hin.
    apply list_elem_of_omap in Hin as (line & Hin & Hline).
    exists line. split; [done|]. unfold line_segment in Hline.
    destruct (is_segment_line (strip line)); [|done].
    destruct (parse_line (strip line)) as [parsed'|]; [|done].
    by injection Hline as ->.
  - intros [Hform [parse_error Hparse]]. exists parse_error.
    rewrite parse_segments_eq. cbn [snd log add_log]. rewrite Hlines.
    rewrite flat_map_app. cbn [flat_map].
    rewrite !elem_of_app. right. right. left.
    unfold line_warnings. rewrite Hform, Hparse. by apply list_elem_of_singleton.
  - intros h self audio_path w0 elapsed_ms out err Hexec Hlive Hout.
    eexists. split; [by eapply recognize_audio_success|].
    unfold success_result. cbn [LocalASRClient.segments].
    by rewrite Hout, Hsegs, omap_app.
Qed.

Lemma C3_unparsable_lines_witness :
  fst (LocalASRClient.parse_segments
         (py "[0 --> 1] early" ++ LF :: py "whisper banner" ++ LF ::
          py "[a --> b" ++ LF :: py "[2 --> 3] late")
         empty_world) =
  Return [{| start := py "0"; end_ := py "1"; text := py "early" |};
          {| start := py "2"; end_ := py "3"; text := py "late" |}].
Proof.
  destruct (C3_unparsable_lines_are_skipped
              (py "[0 --> 1] early" ++ LF :: py "whisper banner" ++ LF ::
               py "[a --> b" ++ LF :: py "[2 --> 3] late")
              [py "[0 --> 1] early"; py "whisper banner"]
              [py "[2 --> 3] late"] (py "[a --> b") empty_world)
    as (Hsegments & _).
  - vm_compute. reflexivity.
  - left. split; [vm_compute; reflexivity|].
    exists ValueError. vm_compute. reflexivity.
  - exact Hsegments.
Defined.

(** An ESC that begins no sequence, before a sequence that the scan
    deletes. *)
Lemma sanitize_clean_prefix pre s : ESC ∉ pre -> sanitize (pre ++ s) = pre ++ sanitize s.
Proof.
  induction pre as [|x pre IH]; intros Hpre; [done|].
  cbn [app]. rewrite sanitize_cons.
  destruct (escape_tail (x :: pre ++ s)) as [rest|] eqn:H.
  - apply escape_tail_esc in H as [s' [= -> _]]. set_solver.
  - rewrite IH; [done|]. set_solver.
Qed.

Lemma final_byte_not_esc c :
  in_ranges [(0x40, 0x5A); (0x5C, 0x5C); (0x5E, 0x5E); (0x5F, 0x5F)] c = true -> c <> ESC.
Proof. intros Hc ->. vm_compute in Hc. done. Qed.

Lemma sanitize_lone_esc pre deleted post c :
  ESC ∉ pre -> ESC ∉ post ->
  escape_tail (deleted ++ c :: post) = Some (c :: post) ->
  in_ranges [(0x40, 0x5A); (0x5C, 0x5C); (0x5E, 0x5E); (0x5F, 0x5F)] c = true ->
  sanitize (pre ++ ESC :: deleted ++ c :: post) = pre ++ ESC :: c :: post.
Proof.
  intros Hpre Hpost Hdeleted Hc. pose proof (final_byte_not_esc c Hc) as Hne.
  rewrite sanitize_clean_prefix by done. f_equal.
  destruct (escape_tail_esc _ _ Hdeleted) as [s' Hs'].
  destruct deleted as [|x deleted]; cbn [app] in Hs'; [congruence|].
  injection Hs' as -> _.
  rewrite sanitize_cons.
  change (escape_tail (ESC :: (ESC :: deleted) ++ c :: post)) with (@None str).
  cbn iota. f_equal. cbn [app] in *. rewrite sanitize_cons, Hdeleted.
  apply sanitize_no_esc. set_solver.
Qed.

Lemma claimed_final_byte c :
  in_ranges [(0x40, 0x5A); (0x5C, 0x5C); (0x5E, 0x5E); (0x5F, 0x5F)] c = true ->
  in_ranges [(0x40, 0x5A); (0x5C, 0x5F)] c = true.
Proof.
  unfold in_ranges. cbn [existsb fst snd].
  repeat match goal with
         | |- context [?a <=? ?b] => destruct (N.leb_spec a b)
         end; cbn; try done; lia.
Qed.

Lemma lone_esc_has_match pre post c :
  in_ranges [(0x40, 0x5A); (0x5C, 0x5C); (0x5E, 0x5E); (0x5F, 0x5F)] c = true ->
  has_match ansi_escape (pre ++ ESC :: c :: post) /\
  has_match spec_pattern (pre ++ ESC :: c :: post).
Proof.
  intros Hc.
  split; exists pre, [ESC; c], post; (split; [done|]);
    apply (M_Seq _ _ [ESC] [c]); [constructor|apply M_AltL|
                                  constructor|apply M_AltL];
    constructor; [by apply claimed_final_byte|done].
Qed.

(** ** Claims about the sanitizer *)

(** C4.  The claim: for every input the output of the sanitizer contains no
    substring matching the escape-sequence pattern.  [ansi_escape.sub] makes
    one scan from left to right and does not look again at what it has
    joined: an ESC that begins no sequence is kept, and when a sequence
    is deleted between it and a character of [@]-[Z], [\], [^] or [_], the
    output contains the sequence made of that ESC and that character.  So
    on the standard output [[0 --> 1] ] ESC ESC [[mA] with exit code 0,
    [recognize_audio] returns the full text [[0 --> 1] ] ESC [A] and one
    segment whose text is ESC [A], a sequence of the pattern as the code has
    it and as section 4.2 words it, where the comment of line 272 says that
    the text holds no ANSI code any more. *)
Theorem C4_sanitize_leaves_an_escape_sequence :
  (forall (pre deleted post : str) (c : char),
     ESC ∉ pre -> ESC ∉ post ->
     escape_tail (deleted ++ c :: post) = Some (c :: post) ->
     in_ranges [(0x40, 0x5A); (0x5C, 0x5C); (0x5E, 0x5E); (0x5F, 0x5F)] c = true ->
     sanitize (pre ++ ESC :: deleted ++ c :: post) = pre ++ ESC :: c :: post /\
     has_match ansi_escape (sanitize (pre ++ ESC :: deleted ++ c :: post)) /\
     has_match spec_pattern (sanitize (pre ++ ESC :: deleted ++ c :: post))) /\
  (forall (h : host) (self : LocalASRClient.t) (audio_path : str) (w : world)
          (elapsed_ms : option N) (out err : bytes),
     execute h (command_of self audio_path) (child_env h self w) =
       Runs elapsed_ms 0 out err ->
     outlives 120 elapsed_ms = false ->
     decode_lossy h out = py "[0 --> 1] " ++ ESC :: ESC :: py "[mA" ->
     exists result,
       fst (LocalASRClient.recognize_audio h self audio_path w) =
         Return (Some result) /\
       LocalASRClient.full_text result = py "[0 --> 1] " ++ ESC :: py "A" /\
       LocalASRClient.segments result =
         [{| start := py "0"; end_ := py "1"; text := ESC :: py "A" |}] /\
       has_match ansi_escape (LocalASRClient.full_text result) /\
       has_match spec_pattern (LocalASRClient.full_text result) /\
       Forall (fun parsed => has_match ansi_escape (text parsed) /\
                             has_match spec_pattern (text parsed))
              (LocalASRClient.segments result)).
Proof.
  split.
  - intros pre deleted post c Hpre Hpost Hdeleted Hc.
    rewrite (sanitize_lone_esc pre deleted post c) by done.
    split; [done|]. by apply lone_esc_has_match.
  - intros h self audio_path w elapsed_ms out err Hexec Hlive Hout.
    eexists. split; [by eapply recognize_audio_success|].
    unfold success_result.
    cbn [LocalASRClient.segments LocalASRClient.full_text]. rewrite Hout.
    assert (has_match ansi_escape (ESC :: py "A") /\
            has_match spec_pattern (ESC :: py "A")) as [Hcode Hspec].
    { apply (lone_esc_has_match [] [] 0x41). reflexivity. }
    split_and!; [vm_compute; reflexivity..| | |].
    + apply (lone_esc_has_match (py "[0 --> 1] ") [] 0x41). reflexivity.
    + apply (lone_esc_has_match (py "[0 --> 1] ") [] 0x41). reflexivity.
    + change (omap line_segment _)
        with [{| start := py "0"; end_ := py "1"; text := ESC :: py "A" |}].
      by repeat constructor.
Qed.

Lemma C4_sanitize_witness :
  sanitize (py "[0 --> 1] " ++ ESC :: ESC :: py "[mA") =
    py "[0 --> 1] " ++ ESC :: py "A" /\
  has_match ansi_escape (sanitize (py "[0 --> 1] " ++ ESC :: ESC :: py "[mA")) /\
  has_match spec_pattern (sanitize (py "[0 --> 1] " ++ ESC :: ESC :: py "[mA")).
Proof.
  destruct C4_sanitize_leaves_an_escape_sequence as (Hleft & _).
  apply (Hleft (py "[0 --> 1] ") (ESC :: py "[m") [] 0x41).
  - apply (bool_decide_unpack _). vm_compute. exact I.
  - apply (bool_decide_unpack _). vm_compute. exact I.
  - vm_compute. reflexivity.
  - vm_compute. reflexivity.
Defined.





(** * Further properties of the module *)

(** ** The local adapter *)

(** X1.  [check_health] of the local adapter answers [True] exactly when
    the executable path and the model path both exist, and leaves the world
    as it was: nothing is run, nothing is logged. *)
Theorem local_check_health_tests_both_paths
    (self : LocalASRClient.t) (w : world) :
  LocalASRClient.check_health self w =
  (Return (bool_decide
             (is_Some (files w !! LocalASRClient.whisper_cli_path self) /\
              is_Some (files w !! LocalASRClient.model_path self))), w).
Proof.
  unfold LocalASRClient.check_health, bind, path_exists, ret.
  destruct (files w !! LocalASRClient.whisper_cli_path self) as [n1|] eqn:H1.
  - rewrite (bool_decide_true (is_Some (Some n1))) by done.
    do 2 f_equal. apply bool_decide_ext. naive_solver.
  - rewrite (bool_decide_false (is_Some None)) by (by intros [? ?]).
    by rewrite (bool_decide_false (is_Some None /\ _)) by (by intros [[? ?] _]).
Qed.

(** X2.  No exception leaves [recognize_audio] of the local adapter: whatever
    the executable does (missing, not startable, too slow, failing, or
    printing bytes that are not UTF-8), the call returns a value. *)
Theorem local_recognize_audio_never_raises
    (h : host) (self : LocalASRClient.t) (audio_path : str) (w : world) :
  exists result,
    fst (LocalASRClient.recognize_audio h self audio_path w) = Return result.
Proof.
  rewrite recognize_audio_eq. cbv zeta.
  destruct (execute h _ _) as [| |elapsed_ms rc out err]; [by eexists..|].
  destruct (outlives 120 elapsed_ms); [by eexists|].
  unfold after_exit. destruct (rc =? 0)%Z; by eexists.
Qed.

(** X3.  [recognize_audio] of the local adapter opens no file of its own
    and keeps the log: the handles open in the Python process are those of
    before, the records logged before the call stay in place, and the
    records of the call follow them, the command line first and at least one
    record after the child process was started.  What the child process
    itself writes, such as the transcript asked for by [-otxt], is its own
    doing and no part of this statement. *)
Theorem local_recognize_audio_frame
    (h : host) (self : LocalASRClient.t) (audio_path : str) (w : world) :
  let w' := snd (LocalASRClient.recognize_audio h self audio_path w) in
  open_files w' = open_files w /\
  next_handle w' = next_handle w /\
  exists entries,
    entries <> [] /\
    log w' =
      log w ++
      (INFO, ExecutingCommand (join (py " ") (command_of self audio_path))) ::
      entries.
Proof.
  cbv zeta. rewrite recognize_audio_eq. cbv zeta.
  assert (forall tail : list (level * message),
            tail <> [] ->
            exists entries,
              entries <> [] /\
              log (add_log tail (launched h self audio_path w)) =
                log w ++
                (INFO, ExecutingCommand
                         (join (py " ") (command_of self audio_path))) ::
                entries) as Hlog.
  { intros tail Htail. cbn [log add_log launched add_run_call].
    unfold launch_log. rewrite <- app_assoc. cbn [app].
    eexists. split; [|reflexivity].
    destruct (existing_lib_dirs h self w); [done|]. by destruct tail. }
  destruct (execute h _ _) as [| |elapsed_ms rc out err];
    [by split_and!; [done..|apply Hlog]..|].
  destruct (outlives 120 elapsed_ms); [by split_and!; [done..|apply Hlog]|].
  unfold after_exit, exit_log.
  destruct (rc =? 0)%Z; (split_and!; [done..|apply Hlog; done]).
Qed.

(** X4.  When the executable is not found, [recognize_audio] of the local
    adapter returns [None], and the record it logs last is the error that
    names the configured executable path. *)
Theorem local_executable_not_found
    (h : host) (self : LocalASRClient.t) (audio_path : str) (w : world) :
  execute h (command_of self audio_path) (child_env h self w) = NoSuchExecutable ->
  let '(returned, w') := LocalASRClient.recognize_audio h self audio_path w in
  returned = Return None /\
  log w' = log w ++ launch_log h self audio_path w ++
           [(ERROR, CommandNotFound (LocalASRClient.whisper_cli_path self))].
Proof.
  intros Hexec. rewrite recognize_audio_eq. cbv zeta. rewrite Hexec.
  split; [done|]. cbn [log add_log launched add_run_call]. by rewrite app_assoc.
Qed.

Lemma local_executable_not_found_witness :
  let '(returned, w') :=
    LocalASRClient.recognize_audio (example_host NoSuchExecutable RequestFails)
      example_client (py "/tmp/lecture.wav") example_world in
  returned = Return None /\
  log w' =
    log example_world ++
    launch_log (example_host NoSuchExecutable RequestFails) example_client
      (py "/tmp/lecture.wav") example_world ++
    [(ERROR, CommandNotFound (LocalASRClient.whisper_cli_path example_client))].
Proof.
  apply (local_executable_not_found
           (example_host NoSuchExecutable RequestFails) example_client
           (py "/tmp/lecture.wav") example_world).
  reflexivity.
Defined.

(** X5.  When the executable cannot be started for another reason (an
    [OSError] that is not [FileNotFoundError]), the catch-all handler returns
    [None] and logs the error with its cause. *)
Theorem local_launch_fault_is_caught
    (h : host) (self : LocalASRClient.t) (audio_path : str) (w : world) :
  execute h (command_of self audio_path) (child_env h self w) = LaunchFault ->
  let '(returned, w') := LocalASRClient.recognize_audio h self audio_path w in
  returned = Return None /\
  log w' = log w ++ launch_log h self audio_path w ++
           [(ERROR, UnknownError OSError)].
Proof.
  intros Hexec. rewrite recognize_audio_eq. cbv zeta. rewrite Hexec.
  split; [done|]. cbn [log add_log launched add_run_call]. by rewrite app_assoc.
Qed.

Lemma local_launch_fault_witness :
  let '(returned, w') :=
    LocalASRClient.recognize_audio (example_host LaunchFault RequestFails)
      example_client (py "/tmp/lecture.wav") example_world in
  returned = Return None /\
  log w' =
    log example_world ++
    launch_log (example_host LaunchFault RequestFails) example_client
      (py "/tmp/lecture.wav") example_world ++
    [(ERROR, UnknownError OSError)].
Proof.
  apply (local_launch_fault_is_caught
           (example_host LaunchFault RequestFails) example_client
           (py "/tmp/lecture.wav") example_world).
  reflexivity.
Defined.

(** X6.  On exit code 0 the dictionary returned has the status
    ["success"], the base name of the audio path as file name, the sanitized
    standard output as full text, no processing time and the fixed model
    name; and its segments are those that parsing its own full text gives. *)
Theorem local_success_result_fields
    (h : host) (self : LocalASRClient.t) (audio_path : str) (w : world)
    (elapsed_ms : option N) (out err : bytes) :
  execute h (command_of self audio_path) (child_env h self w) =
    Runs elapsed_ms 0 out err ->
  outlives 120 elapsed_ms = false ->
  exists result,
    fst (LocalASRClient.recognize_audio h self audio_path w) =
      Return (Some result) /\
    LocalASRClient.status result = py "success" /\
    LocalASRClient.filename result = basename audio_path /\
    LocalASRClient.full_text result = sanitize (decode_lossy h out) /\
    LocalASRClient.processing_time result = None /\
    LocalASRClient.model result = py "whisper.cpp-ggml-base" /\
    forall w0,
      fst (LocalASRClient.parse_segments (LocalASRClient.full_text result) w0) =
      Return (LocalASRClient.segments result).
Proof.
  intros Hexec Hlive. eexists. split; [by eapply recognize_audio_success|].
  split_and!; [done..|]. intros w0. by rewrite parse_segments_eq.
Qed.

Lemma local_success_result_witness :
  exists result,
    fst (LocalASRClient.recognize_audio
           (example_host (Runs (Some 900) 0 (py "[0 --> 1] hi") []) RequestFails)
           example_client (py "/tmp/lecture.wav") example_world) =
      Return (Some result) /\
    LocalASRClient.status result = py "success" /\
    LocalASRClient.filename result = basename (py "/tmp/lecture.wav") /\
    LocalASRClient.full_text result =
      sanitize (decode_lossy
                  (example_host (Runs (Some 900) 0 (py "[0 --> 1] hi") [])
                     RequestFails)
                  (py "[0 --> 1] hi")) /\
    LocalASRClient.processing_time result = None /\
    LocalASRClient.model result = py "whisper.cpp-ggml-base" /\
    forall w0,
      fst (LocalASRClient.parse_segments (LocalASRClient.full_text result) w0) =
      Return (LocalASRClient.segments result).
Proof.
  apply (local_success_result_fields
           (example_host (Runs (Some 900) 0 (py "[0 --> 1] hi") []) RequestFails)
           example_client (py "/tmp/lecture.wav") example_world
           (Some 900) (py "[0 --> 1] hi") []); reflexivity.
Defined.

(** X7.  Standard output that is not UTF-8 does not fail the call: on exit
    code 0 the result is built from the text decoded with invalid bytes
    dropped, and a warning is logged. *)
Theorem local_undecodable_stdout_is_decoded_lossily
    (h : host) (self : LocalASRClient.t) (audio_path : str) (w : world)
    (elapsed_ms : option N) (out err : bytes) :
  execute h (command_of self audio_path) (child_env h self w) =
    Runs elapsed_ms 0 out err ->
  outlives 120 elapsed_ms = false ->
  decode_utf8 h out = None ->
  let '(returned, w') := LocalASRClient.recognize_audio h self audio_path w in
  (exists result,
     returned = Return (Some result) /\
     LocalASRClient.full_text result = sanitize (decode_utf8_ignore h out)) /\
  (WARNING, StdoutNotUtf8) ∈ log w'.
Proof.
  intros Hexec Hlive Hdec. rewrite recognize_audio_eq. cbv zeta.
  rewrite Hexec, Hlive. unfold after_exit. cbn [Z.eqb]. split.
  - eexists. split; [done|]. unfold success_result, decode_lossy.
    cbn [LocalASRClient.full_text]. by rewrite Hdec.
  - cbn [log add_log]. unfold exit_log. rewrite Hdec.
    rewrite !elem_of_app, !elem_of_cons. naive_solver.
Qed.

Lemma local_undecodable_stdout_witness :
  let '(returned, w') :=
    LocalASRClient.recognize_audio
      (example_host (Runs (Some 900) 0 (200 :: py "[0 --> 1] hi") []) RequestFails)
      example_client (py "/tmp/lecture.wav") example_world in
  (exists result,
     returned = Return (Some result) /\
     LocalASRClient.full_text result =
       sanitize (decode_utf8_ignore
                   (example_host (Runs (Some 900) 0 (200 :: py "[0 --> 1] hi") [])
                      RequestFails)
                   (200 :: py "[0 --> 1] hi"))) /\
  (WARNING, StdoutNotUtf8) ∈ log w'.
Proof.
  apply (local_undecodable_stdout_is_decoded_lossily
           (example_host (Runs (Some 900) 0 (200 :: py "[0 --> 1] hi") []) RequestFails)
           example_client (py "/tmp/lecture.wav") example_world
           (Some 900) (200 :: py "[0 --> 1] hi") []); reflexivity.
Defined.

Lemma skipped_lines_app a b :
  skipped_lines (a ++ b) = (skipped_lines a + skipped_lines b)%nat.
Proof. unfold skipped_lines. by rewrite List.filter_app, length_app. Qed.

Lemma skipped_lines_cons r l :
  skipped_lines (r :: l) = (skipped_lines [r] + skipped_lines l)%nat.
Proof. apply (skipped_lines_app [r]). Qed.

Lemma skipped_lines_warnings lines :
  skipped_lines (flat_map line_warnings lines) =
  length (flat_map line_warnings lines).
Proof.
  induction lines as [|line lines IH]; [done|].
  cbn [flat_map]. rewrite skipped_lines_app, length_app, IH. f_equal.
  unfold line_warnings. destruct (is_segment_line (strip line)); [|done].
  by destruct (parse_line (strip line)).
Qed.

Lemma skipped_lines_launch_log h self audio_path w :
  skipped_lines (launch_log h self audio_path w) = 0%nat.
Proof.
  unfold launch_log. by destruct (existing_lib_dirs h self w).
Qed.

(** X8.  The standard output is parsed before the exit code is looked at,
    and on exit code 0 once more: each line that is skipped is warned about
    once when the command failed and twice when it succeeded. *)
Theorem local_skipped_lines_are_warned_about
    (h : host) (self : LocalASRClient.t) (audio_path : str) (w : world)
    (elapsed_ms : option N) (rc : Z) (out err : bytes) :
  execute h (command_of self audio_path) (child_env h self w) =
    Runs elapsed_ms rc out err ->
  outlives 120 elapsed_ms = false ->
  let w' := snd (LocalASRClient.recognize_audio h self audio_path w) in
  let skipped :=
    length (flat_map line_warnings
              (split [LF] (strip (sanitize (decode_lossy h out))))) in
  skipped_lines (log w') =
  (skipped_lines (log w) + (if (rc =? 0)%Z then 2 else 1) * skipped)%nat.
Proof.
  intros Hexec Hlive. cbv zeta. rewrite recognize_audio_eq. cbv zeta.
  rewrite Hexec, Hlive. unfold after_exit.
  assert (forall tail,
            skipped_lines (exit_log h rc out err ++ tail) =
            (length (flat_map line_warnings
                       (split [LF] (strip (sanitize (decode_lossy h out))))) +
             skipped_lines tail)%nat) as Hexit.
  { intros tail. unfold exit_log. rewrite !skipped_lines_app.
    rewrite skipped_lines_warnings.
    destruct (decode_utf8 h out); destruct (decode_lossy h err);
      cbn; lia. }
  destruct (rc =? 0)%Z; cbn [snd log add_log launched add_run_call];
    rewrite (skipped_lines_app (log w ++ _)), (skipped_lines_app (log w)),
      Hexit, skipped_lines_launch_log.
  - rewrite skipped_lines_cons, skipped_lines_app, skipped_lines_warnings.
    cbn. lia.
  - cbn. lia.
Qed.

Lemma local_skipped_lines_witness :
  let w' :=
    snd (LocalASRClient.recognize_audio
           (example_host (Runs (Some 900) 0 (py "[a --> b") []) RequestFails)
           example_client (py "/tmp/lecture.wav") example_world) in
  let skipped :=
    length (flat_map line_warnings
              (split [LF]
                 (strip (sanitize
                           (decode_lossy
                              (example_host
                                 (Runs (Some 900) 0 (py "[a --> b") [])
                                 RequestFails)
                              (py "[a --> b")))))) in
  skipped_lines (log w') =
  (skipped_lines (log example_world) + (if (0 =? 0)%Z then 2 else 1) * skipped)%nat.
Proof.
  apply (local_skipped_lines_are_warned_about
           (example_host (Runs (Some 900) 0 (py "[a --> b") []) RequestFails)
           example_client (py "/tmp/lecture.wav") example_world
           (Some 900) 0%Z (py "[a --> b") []); reflexivity.
Defined.

(** X9.  Two edges of the library-search augmentation.  When none of the
    candidate directories exists, the child process receives [os.environ] as
    it is.  When some exist and [DYLD_LIBRARY_PATH] is unset or empty, its
    new value is the joined directories alone, with no colon at the end. *)
Theorem local_child_environment_edges
    (h : host) (self : LocalASRClient.t) (audio_path : str) (w : world) :
  exists call,
    run_calls (snd (LocalASRClient.recognize_audio h self audio_path w)) =
      run_calls w ++ [call] /\
    (existing_lib_dirs h self w = [] -> run_env call = environ w) /\
    (existing_lib_dirs h self w <> [] ->
     environ w !! DYLD_LIBRARY_PATH = None \/
     environ w !! DYLD_LIBRARY_PATH = Some [] ->
     run_env call =
       <[DYLD_LIBRARY_PATH := join (py ":") (existing_lib_dirs h self w)]>
         (environ w)).
Proof.
  exists (the_run_call h self audio_path w).
  split; [apply recognize_audio_run_calls|].
  cbn [run_env the_run_call]. unfold child_env, augmented. split.
  - by intros ->.
  - intros Hdirs Hprior.
    destruct (existing_lib_dirs h self w) as [|d dirs]; [done|].
    by destruct Hprior as [-> | ->].
Qed.

Lemma local_child_environment_witness :
  exists call,
    run_calls (snd (LocalASRClient.recognize_audio
                      (example_host NoSuchExecutable RequestFails)
                      example_client (py "/tmp/lecture.wav") empty_world)) =
      run_calls empty_world ++ [call] /\
    run_env call = environ empty_world.
Proof.
  destruct (local_child_environment_edges
              (example_host NoSuchExecutable RequestFails)
              example_client (py "/tmp/lecture.wav") empty_world)
    as (call & Hcalls & Hnone & _).
  exists call. split; [exact Hcalls|]. apply Hnone. vm_compute. reflexivity.
Defined.

(** ** The sanitizer and the segment parser *)

(** X10.  The sanitizer only deletes: its output is the input with some
    characters left out, in the same order, and is never longer. *)
Theorem sanitize_only_deletes (s : str) :
  sanitize s `sublist_of` s /\ (length (sanitize s) <= length s)%nat.
Proof.
  assert (sanitize s `sublist_of` s) as Hsub.
  { remember (length s) as n eqn:Hn. revert s Hn.
    induction n as [n IH] using lt_wf_ind. intros s ->.
    destruct s as [|c s]; [done|]. rewrite sanitize_cons.
    destruct (escape_tail (c :: s)) as [rest|] eqn:H.
    - pose proof (escape_tail_shorter _ _ H) as Hlen.
      apply escape_tail_match in H as (m & -> & _).
      apply sublist_inserts_l. by apply (IH (length rest)).
    - apply sublist_skip. apply (IH (length s)); [simpl; lia|done]. }
  split; [done|]. by apply sublist_length.
Qed.

Lemma lstrip_by_head p s c r : lstrip_by p s = c :: r -> p c = false.
Proof.
  induction s as [|x s IH]; cbn [lstrip_by]; [done|].
  destruct (p x) eqn:Hx; [done|]. by intros [= <- _].
Qed.

Lemma lstrip_by_fixed p s :
  match s with [] => True | c :: _ => p c = false end -> lstrip_by p s = s.
Proof. destruct s as [|c s]; cbn [lstrip_by]; [done|]. by intros ->. Qed.

Lemma lstrip_by_idemp p s : lstrip_by p (lstrip_by p s) = lstrip_by p s.
Proof.
  apply lstrip_by_fixed. destruct (lstrip_by p s) as [|c r] eqn:H; [done|].
  by apply lstrip_by_head in H.
Qed.

Lemma strip_by_idemp p s : strip_by p (strip_by p s) = strip_by p s.
Proof.
  unfold strip_by at 1.
  assert (lstrip_by p (strip_by p s) = strip_by p s) as ->.
  { apply lstrip_by_fixed. unfold strip_by.
    destruct (rstrip_by_prefix p (lstrip_by p s)) as [suf Hsuf].
    destruct (rstrip_by p (lstrip_by p s)) as [|c r]; [done|].
    cbn [app] in Hsuf. by apply lstrip_by_head in Hsuf. }
  unfold strip_by, rstrip_by. by rewrite rev_involutive, lstrip_by_idemp.
Qed.

Lemma contains_lstrip_false sub p s :
  contains sub s = false -> contains sub (lstrip_by p s) = false.
Proof.
  intros H. destruct (lstrip_by_suffix p s) as [pre Hpre].
  rewrite Hpre in H. by apply contains_suffix_false in H.
Qed.

Lemma contains_rstrip_false sub p s :
  contains sub s = false -> contains sub (rstrip_by p s) = false.
Proof.
  intros H. destruct (rstrip_by_prefix p s) as [suf Hsuf].
  rewrite Hsuf in H. by apply contains_prefix_false in H.
Qed.

Lemma contains_strip_false sub p s :
  contains sub s = false -> contains sub (strip_by p s) = false.
Proof.
  intros H. unfold strip_by. by apply contains_rstrip_false, contains_lstrip_false.
Qed.

(** X11.  Every segment that the parser returns has trimmed fields, and its
    two time stamps contain neither [']'] nor ['-->']. *)
Theorem segments_have_clean_fields
    (stdout_text : str) (w : world) (segments : list segment) (parsed : segment) :
  fst (LocalASRClient.parse_segments stdout_text w) = Return segments ->
  parsed ∈ segments ->
  trimmed (start parsed) /\ trimmed (end_ parsed) /\ trimmed (text parsed) /\
  contains (py "]") (start parsed) = false /\
  contains (py "]") (end_ parsed) = false /\
  contains (py "-->") (start parsed) = false /\
  contains (py "-->") (end_ parsed) = false.
Proof.
  rewrite parse_segments_eq. cbn [fst]. intros [= <-] Hin.
  apply list_elem_of_omap in Hin as (line & _ & Hline).
  unfold line_segment in Hline.
  destruct (is_segment_line (strip line)) eqn:Hform; [|done].
  destruct (parse_line (strip line)) as [parsed'|] eqn:Hparse; [|done].
  injection Hline as ->.
  apply andb_true_iff in Hform as [Hopen _].
  destruct (parse_line_inv _ _ Hopen Hparse)
    as (start_time & end_time & text' & Heq & Hwf).
  rewrite Heq, parse_line_well_formed in Hparse by done.
  injection Hparse as <-. cbn [start end_ text].
  destruct Hwf as (Hs & He & Has & Hae).
  unfold trimmed, strip.
  split_and!; try apply strip_by_idemp;
    apply contains_strip_false;
    first [by apply contains_lstrip_false | by apply contains_rstrip_false].
Qed.

Lemma segments_have_clean_fields_witness :
  trimmed (py "00:00:00.000") /\ trimmed (py "00:00:02.500") /\
  trimmed (py "Hello world") /\
  contains (py "]") (py "00:00:00.000") = false /\
  contains (py "]") (py "00:00:02.500") = false /\
  contains (py "-->") (py "00:00:00.000") = false /\
  contains (py "-->") (py "00:00:02.500") = false.
Proof.
  apply (segments_have_clean_fields
           (py "[00:00:00.000 --> 00:00:02.500]  Hello world") empty_world
           [{| start := py "00:00:00.000"; end_ := py "00:00:02.500";
               text := py "Hello world" |}]
           {| start := py "00:00:00.000"; end_ := py "00:00:02.500";
              text := py "Hello world" |}).
  - vm_compute. reflexivity.
  - apply list_elem_of_singleton. reflexivity.
Defined.

Lemma split_pieces_are_substrings sep s piece :
  sep <> [] -> piece ∈ split sep s -> exists a b, s = a ++ piece ++ b.
Proof.
  intros Hsep. remember (length s) as n eqn:Hn. revert s Hn.
  induction n as [n IH] using lt_wf_ind. intros s ->.
  rewrite split_unfold by done.
  destruct (partition_at sep s) as [[a b]|] eqn:H.
  - pose proof (partition_at_shorter _ _ _ _ Hsep H) as Hlen.
    apply partition_at_sound in H as ->.
    intros [->|Hin]%elem_of_cons.
    + by exists [], (sep ++ b).
    + destruct (IH (length b) Hlen b eq_refl Hin) as (a' & b' & ->).
      exists (a ++ sep ++ a'), b'. by rewrite <- !app_assoc.
  - intros ->%list_elem_of_singleton. exists [], []. by rewrite app_nil_r.
Qed.

(** X12.  Standard output without ['-->'] yields no segment and no warning:
    the parser returns the empty list and leaves the log as it was, and on
    exit code 0 the call succeeds with no segments. *)
Theorem output_without_arrow_has_no_segments
    (stdout_text : str) (w : world) :
  contains (py "-->") stdout_text = false ->
  LocalASRClient.parse_segments stdout_text w = (Return [], w) /\
  forall (h : host) (self : LocalASRClient.t) (audio_path : str) (w0 : world)
         (elapsed_ms : option N) (out err : bytes),
    execute h (command_of self audio_path) (child_env h self w0) =
      Runs elapsed_ms 0 out err ->
    outlives 120 elapsed_ms = false ->
    sanitize (decode_lossy h out) = stdout_text ->
    exists result,
      fst (LocalASRClient.recognize_audio h self audio_path w0) =
        Return (Some result) /\
      LocalASRClient.segments result = [].
Proof.
  intros Harrow.
  assert (forall line, line ∈ split [LF] (strip stdout_text) ->
                       is_segment_line (strip line) = false) as Hlines.
  { intros line Hin.
    apply split_pieces_are_substrings in Hin as (a & b & Heq); [|done].
    apply (contains_strip_false _ isspace) in Harrow. fold (strip stdout_text) in Harrow.
    rewrite Heq in Harrow. apply contains_suffix_false in Harrow.
    apply contains_prefix_false in Harrow.
    apply (contains_strip_false _ isspace) in Harrow. fold (strip line) in Harrow.
    unfold is_segment_line. rewrite Harrow. apply andb_false_r. }
  assert (omap line_segment (split [LF] (strip stdout_text)) = [] /\
          flat_map line_warnings (split [LF] (strip stdout_text)) = [])
    as [Hsegs Hwarn].
  { induction (split [LF] (strip stdout_text)) as [|line lines IH]; [done|].
    rewrite omap_line_segment_cons. cbn [flat_map].
    unfold line_segment at 1, line_warnings at 1.
    rewrite (Hlines line) by (apply elem_of_cons; by left).
    apply IH. intros l Hl. apply Hlines. apply elem_of_cons. by right. }
  split.
  - by rewrite parse_segments_eq, Hsegs, Hwarn, add_log_nil.
  - intros h self audio_path w0 elapsed_ms out err Hexec Hlive Hout.
    eexists. split; [by eapply recognize_audio_success|].
    unfold success_result. cbn [LocalASRClient.segments]. by rewrite Hout.
Qed.

Lemma output_without_arrow_witness :
  LocalASRClient.parse_segments (py "whisper banner") empty_world =
    (Return [], empty_world).
Proof.
  apply (output_without_arrow_has_no_segments (py "whisper banner") empty_world).
  vm_compute. reflexivity.
Defined.

(** ** The remote adapter *)

Lemma remote_missing_file_eq h self audio_path w :
  files w !! audio_path = None ->
  ASRClient.recognize_audio h self audio_path w =
  (Return None, add_log [(ERROR, FileMissing audio_path)] w).
Proof.
  intros Hfile. unfold ASRClient.recognize_audio, bind at 1, path_exists.
  rewrite Hfile. rewrite bool_decide_false by (by intros [? ?]). done.
Qed.

(** X13.  For a path that does not exist, [recognize_audio] of the remote
    adapter returns [None] after one error record; no file is opened and no
    request is sent. *)
Theorem remote_missing_file
    (h : host) (self : ASRClient.t) (audio_path : str) (w : world) :
  files w !! audio_path = None ->
  ASRClient.recognize_audio h self audio_path w =
  (Return None, add_log [(ERROR, FileMissing audio_path)] w).
Proof. apply remote_missing_file_eq. Qed.

Lemma remote_missing_file_witness :
  ASRClient.recognize_audio (example_host NoSuchExecutable ConnectionFails)
    example_remote (py "/tmp/missing.wav") example_world =
  (Return None, add_log [(ERROR, FileMissing (py "/tmp/missing.wav"))] example_world).
Proof.
  apply (remote_missing_file (example_host NoSuchExecutable ConnectionFails)
           example_remote (py "/tmp/missing.wav") example_world).
  vm_compute. reflexivity.
Defined.

Ltac remote_done :=
  eexists; split_and!; [reflexivity|..];
  cbn [files environ run_calls next_handle open_files add_log set_open_files];
  try done; set_solver.

Lemma remote_recognize_audio_answer
    (h : host) (self : ASRClient.t) (audio_path : str) (w : world) :
  files w !! audio_path = Some RegularFile ->
  exists w',
    ASRClient.recognize_audio h self audio_path w =
      (Return (remote_answer h self audio_path), w') /\
    files w' = files w /\
    environ w' = environ w /\
    run_calls w' = run_calls w /\
    next_handle w' = S (next_handle w) /\
    open_files w' =
      match http_post h (recognize_url self) (basename audio_path) with
      | ConnectionFails => {[next_handle w]} ∪ open_files w
      | _ => ({[next_handle w]} ∪ open_files w) ∖ {[next_handle w]}
      end.
Proof.
  intros Hfile. run_remote. unfold remote_answer, recognize_url.
  rewrite bool_decide_true by done. cbn [negb]. rewrite Hfile.
  cbn [fst snd].
  destruct (http_post h _ _) as [r| |]; [|remote_done..].
  destruct (status_code r =? 200)%Z; [|remote_done].
  destruct (response_json r) as [result|]; [|remote_done].
  destruct result as [| | | | |fields]; try remote_done.
  cbn [ASRClient.getitem].
  destruct (ASRClient.dict_get fields (py "filename")); remote_done.
Qed.

(** X14.  For a file that can be opened, [recognize_audio] of the remote
    adapter returns a result exactly when the service answers with status
    200 and a body that is a JSON object with a ["filename"]; the result is
    that object.  A 200 answer of another shape is a failure. *)
Theorem remote_result_iff
    (h : host) (self : ASRClient.t) (audio_path : str) (w : world)
    (result : json) :
  files w !! audio_path = Some RegularFile ->
  fst (ASRClient.recognize_audio h self audio_path w) = Return (Some result) <->
  exists r fields,
    http_post h (recognize_url self) (basename audio_path) = Responds r /\
    status_code r = 200%Z /\
    response_json r = Some result /\
    result = JObject fields /\
    is_Some (ASRClient.dict_get fields (py "filename")).
Proof.
  intros Hfile.
  destruct (remote_recognize_audio_answer h self audio_path w Hfile)
    as (w' & -> & _).
  cbn [fst]. unfold remote_answer. split.
  - destruct (http_post h _ _) as [r| |]; [|done..].
    destruct (status_code r =? 200)%Z eqn:Hstatus; [|done].
    apply Z.eqb_eq in Hstatus.
    destruct (response_json r) as [[| | | | |fields]|] eqn:Hjson; try done.
    destruct (ASRClient.dict_get fields (py "filename")) eqn:Hname; [|done].
    intros [= <-]. exists r, fields. by rewrite Hname.
  - intros (r & fields & -> & Hstatus & -> & -> & [name Hname]).
    apply Z.eqb_eq in Hstatus. by rewrite Hstatus, Hname.
Qed.

Lemma remote_result_iff_witness :
  fst (ASRClient.recognize_audio
         (example_host NoSuchExecutable
            (Responds {| status_code := 200; response_text := [];
                         response_json := Some (JObject []) |}))
         example_remote (py "/tmp/lecture.wav") example_world) <>
  Return (Some (JObject [])).
Proof.
  intros Hreturned.
  apply (remote_result_iff
           (example_host NoSuchExecutable
              (Responds {| status_code := 200; response_text := [];
                           response_json := Some (JObject []) |}))
           example_remote (py "/tmp/lecture.wav") example_world (JObject []))
    in Hreturned as (r & fields & _ & _ & _ & Heq & Hname).
  - injection Heq as <-. by destruct Hname.
  - vm_compute. reflexivity.
Defined.

(** X15.  Whenever the request does not end in a connection failure, the
    upload handle is closed when [recognize_audio] of the remote adapter
    returns: the open handles are those of before, and the call used up one
    handle number. *)
Theorem remote_handle_is_closed_unless_connection_fails
    (h : host) (self : ASRClient.t) (audio_path : str) (w : world) :
  files w !! audio_path = Some RegularFile ->
  next_handle w ∉ open_files w ->
  http_post h (recognize_url self) (basename audio_path) <> ConnectionFails ->
  let w' := snd (ASRClient.recognize_audio h self audio_path w) in
  open_files w' = open_files w /\ next_handle w' = S (next_handle w).
Proof.
  intros Hfile Hfresh Hpost. cbv zeta.
  destruct (remote_recognize_audio_answer h self audio_path w Hfile)
    as (w' & -> & _ & _ & _ & Hnext & Hopen).
  cbn [snd]. split; [|done]. rewrite Hopen.
  destruct (http_post h _ _); [|done|]; set_solver.
Qed.

Lemma remote_handle_is_closed_witness :
  let w' :=
    snd (ASRClient.recognize_audio
           (example_host NoSuchExecutable
              (Responds {| status_code := 500; response_text := py "busy";
                           response_json := None |}))
           example_remote (py "/tmp/lecture.wav") example_world) in
  open_files w' = open_files example_world /\
  next_handle w' = S (next_handle example_world).
Proof.
  apply (remote_handle_is_closed_unless_connection_fails
           (example_host NoSuchExecutable
              (Responds {| status_code := 500; response_text := py "busy";
                           response_json := None |}))
           example_remote (py "/tmp/lecture.wav") example_world).
  - vm_compute. reflexivity.
  - apply (bool_decide_unpack _). vm_compute. exact I.
  - discriminate.
Defined.

Lemma remote_open_raises h self audio_path w :
  files w !! audio_path = Some Directory ->
  ASRClient.recognize_audio h self audio_path w = (Raise OSError, w).
Proof.
  intros Hfile. unfold ASRClient.recognize_audio, bind, path_exists, open_rb.
  rewrite bool_decide_true by done. cbn [negb]. by rewrite Hfile.
Qed.

(** X16.  A path that exists and cannot be opened (a directory) makes
    [recognize_audio] of the remote adapter raise: [open] is called outside
    the [try] block, so the [OSError] leaves the method. *)
Theorem remote_unopenable_path_raises
    (h : host) (self : ASRClient.t) (audio_path : str) (w : world) :
  files w !! audio_path = Some Directory ->
  ASRClient.recognize_audio h self audio_path w = (Raise OSError, w).
Proof. apply remote_open_raises. Qed.

Lemma remote_unopenable_path_witness :
  ASRClient.recognize_audio (example_host NoSuchExecutable ConnectionFails)
    example_remote (py "/opt/whisper.cpp/build/src") example_world =
  (Raise OSError, example_world).
Proof.
  apply (remote_unopenable_path_raises
           (example_host NoSuchExecutable ConnectionFails)
           example_remote (py "/opt/whisper.cpp/build/src") example_world).
  vm_compute. reflexivity.
Defined.

(** X17.  No exception leaves [process_video] of the remote adapter:
    whatever the extraction function and the recognition do, also when they
    raise, the method returns a value. *)
Theorem remote_process_video_never_raises
    (h : host) (self : ASRClient.t) (video_path : str)
    (extract_audio_func : option (str -> M (option str))) (w : world) :
  exists result,
    fst (ASRClient.process_video h self video_path extract_audio_func w) =
    Return result.
Proof.
  unfold ASRClient.process_video. destruct extract_audio_func as [extract|].
  - unfold try_except.
    match goal with
    | |- context [let (_, _) := ?m w in _] => destruct (m w) as [[result|e] w']
    end; by eexists.
  - by eexists.
Qed.

(** X18.  When the extraction function gives no path ([None] or the empty
    string), [process_video] of the remote adapter returns [None] after one
    error record: nothing is recognized, opened or deleted. *)
Theorem remote_process_video_without_audio
    (h : host) (self : ASRClient.t) (video_path : str)
    (extract : str -> M (option str)) (w w1 : world) (audio_path : option str) :
  extract video_path w = (Return audio_path, w1) ->
  audio_path = None \/ audio_path = Some [] ->
  ASRClient.process_video h self video_path (Some extract) w =
  (Return None, add_log [(ERROR, ExtractionFailed)] w1).
Proof.
  intros Hextract Hnone. unfold ASRClient.process_video, try_except.
  erewrite bind_return by exact Hextract.
  by destruct Hnone as [-> | ->].
Qed.

Lemma remote_process_video_without_audio_witness :
  ASRClient.process_video (example_host NoSuchExecutable ConnectionFails)
    example_remote (py "/tmp/lecture.mp4") (Some (fun _ => ret (Some [])))
    example_world =
  (Return None, add_log [(ERROR, ExtractionFailed)] example_world).
Proof.
  apply (remote_process_video_without_audio
           (example_host NoSuchExecutable ConnectionFails) example_remote
           (py "/tmp/lecture.mp4") (fun _ => ret (Some [])) example_world
           example_world (Some [])); [reflexivity | right; reflexivity].
Defined.

(** X19.  When the extraction function raises, [process_video] of the
    remote adapter returns [None] and logs the error with its cause. *)
Theorem remote_process_video_extraction_raises
    (h : host) (self : ASRClient.t) (video_path : str)
    (extract : str -> M (option str)) (w w1 : world) (e : exn) :
  extract video_path w = (Raise e, w1) ->
  ASRClient.process_video h self video_path (Some extract) w =
  (Return None, add_log [(ERROR, VideoError e)] w1).
Proof.
  intros Hextract. unfold ASRClient.process_video, try_except.
  by erewrite bind_raise by exact Hextract.
Qed.

Lemma remote_process_video_extraction_raises_witness :
  ASRClient.process_video (example_host NoSuchExecutable ConnectionFails)
    example_remote (py "/tmp/lecture.mp4") (Some (fun _ => raise OtherException))
    example_world =
  (Return None, add_log [(ERROR, VideoError OtherException)] example_world).
Proof.
  apply (remote_process_video_extraction_raises
           (example_host NoSuchExecutable ConnectionFails) example_remote
           (py "/tmp/lecture.mp4") (fun _ => raise OtherException) example_world
           example_world OtherException).
  reflexivity.
Defined.

(** X20.  When extraction gives the path of a regular file,
    [process_video] of the remote adapter returns what [recognize_audio]
    returns for that path, a result or [None], and the file is deleted
    afterwards in both cases; nothing else of the file system changes. *)
Theorem remote_process_video_recognizes_then_deletes
    (h : host) (self : ASRClient.t) (video_path : str)
    (extract : str -> M (option str)) (w w1 : world) (c : char) (audio_path : str) :
  extract video_path w = (Return (Some (c :: audio_path)), w1) ->
  files w1 !! (c :: audio_path) = Some RegularFile ->
  let '(returned, w') :=
    ASRClient.process_video h self video_path (Some extract) w in
  returned = fst (ASRClient.recognize_audio h self (c :: audio_path) w1) /\
  files w' = delete (c :: audio_path) (files w1).
Proof.
  intros Hextract Hfile.
  destruct (remote_recognize_audio_answer h self (c :: audio_path) w1 Hfile)
    as (w2 & Hrec & Hfiles & _).
  unfold ASRClient.process_video. unfold try_except at 1.
  erewrite bind_return by exact Hextract. cbv beta iota.
  erewrite bind_return by exact Hrec.
  unfold bind at 1, path_exists. rewrite Hfiles.
  rewrite bool_decide_true by done.
  unfold when, bind, try_except, unlink, ret. rewrite Hfiles, Hfile.
  rewrite Hrec. done.
Qed.

Lemma remote_process_video_recognizes_then_deletes_witness :
  let '(returned, w') :=
    ASRClient.process_video (example_host NoSuchExecutable ConnectionFails)
      example_remote (py "/tmp/lecture.mp4")
      (Some (fun _ => ret (Some (py "/tmp/lecture.wav")))) example_world in
  returned =
    fst (ASRClient.recognize_audio (example_host NoSuchExecutable ConnectionFails)
           example_remote (py "/tmp/lecture.wav") example_world) /\
  files w' = delete (py "/tmp/lecture.wav") (files example_world).
Proof.
  apply (remote_process_video_recognizes_then_deletes
           (example_host NoSuchExecutable ConnectionFails) example_remote
           (py "/tmp/lecture.mp4")
           (fun _ => ret (Some (py "/tmp/lecture.wav")))
           example_world example_world 47 (py "tmp/lecture.wav"));
    [reflexivity | vm_compute; reflexivity].
Defined.

(** X21.  When extraction gives a path that exists and cannot be opened (a
    directory), the [OSError] of [recognize_audio] is caught by
    [process_video]: it returns [None], logs the error, and the clean-up is
    skipped, so the path stays in place. *)
Theorem remote_process_video_unopenable_audio
    (h : host) (self : ASRClient.t) (video_path : str)
    (extract : str -> M (option str)) (w w1 : world) (c : char) (audio_path : str) :
  extract video_path w = (Return (Some (c :: audio_path)), w1) ->
  files w1 !! (c :: audio_path) = Some Directory ->
  ASRClient.process_video h self video_path (Some extract) w =
  (Return None, add_log [(ERROR, VideoError OSError)] w1).
Proof.
  intros Hextract Hfile. unfold ASRClient.process_video. unfold try_except at 1.
  erewrite bind_return by exact Hextract. cbv beta iota.
  erewrite bind_raise by (by apply remote_open_raises). done.
Qed.

Lemma remote_process_video_unopenable_audio_witness :
  ASRClient.process_video (example_host NoSuchExecutable ConnectionFails)
    example_remote (py "/tmp/lecture.mp4")
    (Some (fun _ => ret (Some (py "/opt/whisper.cpp/build/src")))) example_world =
  (Return None, add_log [(ERROR, VideoError OSError)] example_world).
Proof.
  apply (remote_process_video_unopenable_audio
           (example_host NoSuchExecutable ConnectionFails) example_remote
           (py "/tmp/lecture.mp4")
           (fun _ => ret (Some (py "/opt/whisper.cpp/build/src")))
           example_world example_world 47 (py "opt/whisper.cpp/build/src"));
    [reflexivity | vm_compute; reflexivity].
Defined.

Lemma remote_recognize_audio_step h self audio_file w :
  files w !! audio_file <> Some Directory ->
  exists w',
    ASRClient.recognize_audio h self audio_file w =
      (Return (snd <$> batch_answer h self (files w) audio_file), w') /\
    files w' = files w.
Proof.
  intros Hfile. unfold batch_answer.
  destruct (files w !! audio_file) as [[|]|] eqn:Hlookup; [|done|].
  - destruct (remote_recognize_audio_answer h self audio_file w Hlookup)
      as (w' & -> & Hfiles & _).
    exists w'. split; [|done]. by destruct (remote_answer h self audio_file).
  - rewrite remote_missing_file_eq by done. by eexists.
Qed.

Lemma recognize_multiple_files_from h self audio_files :
  forall results w,
    (forall audio_file, audio_file ∈ audio_files ->
                        files w !! audio_file <> Some Directory) ->
    exists w',
      for_each audio_files results (fun results audio_file =>
        bind (logger INFO (ProcessingFile audio_file)) (fun _ =>
        bind (ASRClient.recognize_audio h self audio_file) (fun result =>
        ret match result with
            | Some r => results ++ [(audio_file, r)]
            | None => results
            end))) w =
      (Return (results ++ omap (batch_answer h self (files w)) audio_files), w') /\
      files w' = files w.
Proof.
  induction audio_files as [|audio_file audio_files IH]; intros results w Hfiles.
  - exists w. by rewrite app_nil_r.
  - assert (files (add_log [(INFO, ProcessingFile audio_file)] w) !! audio_file
            <> Some Directory) as Hfile
      by (apply Hfiles, elem_of_cons; by left).
    destruct (remote_recognize_audio_step h self audio_file _ Hfile)
      as (w1 & Hstep & Hfs).
    cbn [files add_log] in Hfs.
    destruct (IH (match snd <$> batch_answer h self (files w) audio_file with
                  | Some r => results ++ [(audio_file, r)]
                  | None => results
                  end) w1) as (w' & Hrest & Hfs').
    { intros f Hf. rewrite Hfs. apply Hfiles, elem_of_cons. by right. }
    exists w'. split; [|by rewrite Hfs', Hfs].
    cbn [for_each]. unfold bind at 1. unfold bind at 1. unfold logger at 1.
    erewrite bind_return by exact Hstep. unfold ret at 1.
    cbn [files add_log] in Hrest |- *. rewrite Hrest, Hfs.
    f_equal. f_equal. cbn [omap list_omap].
    fold (omap (batch_answer h self (files w)) audio_files).
    unfold batch_answer at 1 3.
    destruct (files w !! audio_file); [|done].
    destruct (remote_answer h self audio_file); [|done].
    cbn. by rewrite <- app_assoc.
Qed.

Lemma batch_paths_sublist h self fs audio_files :
  map fst (omap (batch_answer h self fs) audio_files) `sublist_of` audio_files.
Proof.
  induction audio_files as [|audio_file audio_files IH]; [done|].
  cbn [omap list_omap]. fold (omap (batch_answer h self fs) audio_files).
  unfold batch_answer at 1.
  destruct (fs !! audio_file); [|by apply sublist_cons].
  destruct (remote_answer h self audio_file); [|by apply sublist_cons].
  cbn [map fst]. by apply sublist_skip.
Qed.

(** X22.  When no path of the batch is a directory,
    [recognize_multiple_files] returns one pair of path and result for each
    path that exists and is recognized, in the order of the batch; the paths
    that are missing or fail are left out, and the file system is as it
    was. *)
Theorem remote_batch_keeps_the_successes_in_order
    (h : host) (self : ASRClient.t) (audio_files : list str) (w : world) :
  (forall audio_file, audio_file ∈ audio_files ->
                      files w !! audio_file <> Some Directory) ->
  let '(returned, w') :=
    ASRClient.recognize_multiple_files h self audio_files w in
  returned = Return (omap (batch_answer h self (files w)) audio_files) /\
  map fst (omap (batch_answer h self (files w)) audio_files)
    `sublist_of` audio_files /\
  files w' = files w.
Proof.
  intros Hfiles.
  destruct (recognize_multiple_files_from h self audio_files [] w Hfiles)
    as (w' & Heq & Hfs).
  unfold ASRClient.recognize_multiple_files. rewrite Heq.
  split_and!; [done| |done]. apply batch_paths_sublist.
Qed.

Lemma remote_batch_witness :
  let '(returned, w') :=
    ASRClient.recognize_multiple_files
      (example_host NoSuchExecutable
         (Responds {| status_code := 200; response_text := [];
                      response_json :=
                        Some (JObject [(py "filename", JString (py "a.wav"))]) |}))
      example_remote [py "/tmp/missing.wav"; py "/tmp/lecture.wav"]
      example_world in
  returned =
    Return (omap (batch_answer
                    (example_host NoSuchExecutable
                       (Responds {| status_code := 200; response_text := [];
                                    response_json :=
                                      Some (JObject [(py "filename",
                                                      JString (py "a.wav"))]) |}))
                    example_remote (files example_world))
              [py "/tmp/missing.wav"; py "/tmp/lecture.wav"]) /\
  map fst (omap (batch_answer
                   (example_host NoSuchExecutable
                      (Responds {| status_code := 200; response_text := [];
                                   response_json :=
                                     Some (JObject [(py "filename",
                                                     JString (py "a.wav"))]) |}))
                   example_remote (files example_world))
             [py "/tmp/missing.wav"; py "/tmp/lecture.wav"])
    `sublist_of` [py "/tmp/missing.wav"; py "/tmp/lecture.wav"] /\
  files w' = files example_world.
Proof.
  apply (remote_batch_keeps_the_successes_in_order
           (example_host NoSuchExecutable
              (Responds {| status_code := 200; response_text := [];
                           response_json :=
                             Some (JObject [(py "filename",
                                             JString (py "a.wav"))]) |}))
           example_remote [py "/tmp/missing.wav"; py "/tmp/lecture.wav"]
           example_world).
  intros audio_file Hin.
  apply elem_of_cons in Hin as [->|Hin]; [vm_compute; discriminate|].
  apply list_elem_of_singleton in Hin as ->. vm_compute. discriminate.
Defined.

Lemma for_each_app {A S} (a b : list A) (acc : S) (body : S -> A -> M S) w :
  for_each (a ++ b) acc body w =
  match for_each a acc body w with
  | (Return acc', w') => for_each b acc' body w'
  | (Raise e, w') => (Raise e, w')
  end.
Proof.
  revert acc w. induction a as [|x a IH]; intros acc w; [done|].
  cbn [app for_each]. unfold bind.
  destruct (body acc x w) as [[acc'|e] w']; [apply IH|done].
Qed.

(** X23.  A directory in the batch aborts it: when it is reached,
    [recognize_multiple_files] raises the [OSError] of [open], and the
    results collected so far are not returned. *)
Theorem remote_batch_aborts_at_a_directory
    (h : host) (self : ASRClient.t) (before after : list str) (d : str)
    (w : world) :
  (forall audio_file, audio_file ∈ before ->
                      files w !! audio_file <> Some Directory) ->
  files w !! d = Some Directory ->
  fst (ASRClient.recognize_multiple_files h self (before ++ d :: after) w) =
  Raise OSError.
Proof.
  intros Hbefore Hd.
  destruct (recognize_multiple_files_from h self before [] w Hbefore)
    as (w1 & Heq & Hfs).
  unfold ASRClient.recognize_multiple_files. rewrite for_each_app, Heq.
  cbn [for_each]. unfold bind at 1. unfold bind at 1. unfold logger at 1.
  erewrite bind_raise; [done|].
  apply remote_open_raises. cbn [files add_log]. by rewrite Hfs.
Qed.

Lemma remote_batch_aborts_witness :
  fst (ASRClient.recognize_multiple_files
         (example_host NoSuchExecutable ConnectionFails) example_remote
         ([py "/tmp/lecture.wav"] ++
          py "/opt/whisper.cpp/build/src" :: [py "/tmp/lecture.wav"])
         example_world) =
  Raise OSError.
Proof.
  apply (remote_batch_aborts_at_a_directory
           (example_host NoSuchExecutable ConnectionFails) example_remote
           [py "/tmp/lecture.wav"] [py "/tmp/lecture.wav"]
           (py "/opt/whisper.cpp/build/src") example_world).
  - intros audio_file Hin. apply list_elem_of_singleton in Hin as ->.
    vm_compute. discriminate.
  - vm_compute. reflexivity.
Defined.

Lemma rstrip_by_snoc p s c : p c = true -> rstrip_by p (s ++ [c]) = rstrip_by p s.
Proof.
  intros Hc. unfold rstrip_by. rewrite rev_app_distr. cbn [rev app lstrip_by].
  by rewrite Hc.
Qed.

Lemma rstrip_by_last p s :
  match last (rstrip_by p s) with Some c => p c = false | None => True end.
Proof.
  unfold rstrip_by. destruct (lstrip_by p (rev s)) as [|c r] eqn:H; [done|].
  apply lstrip_by_head in H. cbn [rev]. by rewrite last_snoc.
Qed.

(** X24.  Slashes at the end of the server URL do not matter: a client
    keeps the URL without them, so the upload URL has exactly one slash
    before [asr/recognize], and the module-level [recognize_audio] does the
    same with and without a slash at the end of [server_url]. *)
Theorem server_url_trailing_slashes_are_dropped
    (h : host) (audio_path server_url : str) :
  last (ASRClient.server_url (ASRClient.init server_url)) <> Some 0x2F /\
  ASRClient.init (server_url ++ py "/") = ASRClient.init server_url /\
  recognize_audio h audio_path (server_url ++ py "/") =
    recognize_audio h audio_path server_url.
Proof.
  assert (ASRClient.init (server_url ++ py "/") = ASRClient.init server_url)
    as Hinit.
  { unfold ASRClient.init. f_equal. by apply rstrip_by_snoc. }
  split_and!; [|done|].
  - cbn [ASRClient.init ASRClient.server_url].
    pose proof (rstrip_by_last is_slash server_url) as Hlast.
    destruct (last (rstrip_by is_slash server_url)) as [c|]; [|done].
    intros [= ->]. done.
  - unfold recognize_audio. by rewrite Hinit.
Qed.

Ltac run_health :=
  unfold RemoteHealth.check_health, RemoteHealth.requests_get, htry, hbind,
    hlift, hlogger, hret.

Ltac health_false :=
  eexists _, _; split; [rewrite <- ?app_assoc; reflexivity|by left].

(** X25.  [check_health] of the remote adapter never raises: it returns
    [False], or, after a 200 answer whose body is a JSON object with a
    ["status"] and a ["model_loaded"], the value of ["model_loaded"] as the
    service sent it; and it only appends to the log. *)
Theorem remote_check_health_never_raises
    (http_get : str -> http_outcome) (self : ASRClient.t)
    (l : list (level * health_message)) :
  exists value entries,
    RemoteHealth.check_health http_get self l = (Return value, l ++ entries) /\
    (value = JBool false \/
     exists r fields,
       http_get (ASRClient.server_url self ++ py "/health") = Responds r /\
       status_code r = 200%Z /\
       response_json r = Some (JObject fields) /\
       is_Some (ASRClient.dict_get fields (py "status")) /\
       ASRClient.dict_get fields (py "model_loaded") = Some value).
Proof.
  run_health.
  destruct (http_get _) as [r| |] eqn:Hget;
    [|health_false..].
  destruct (status_code r =? 200)%Z eqn:Hstatus;
    [|health_false].
  apply Z.eqb_eq in Hstatus.
  destruct (response_json r) as [[| | | | |fields]|] eqn:Hjson;
    try (health_false).
  cbn [ASRClient.getitem].
  destruct (ASRClient.dict_get fields (py "status")) as [status|] eqn:Hs;
    [|health_false].
  destruct (ASRClient.dict_get fields (py "model_loaded")) as [loaded|] eqn:Hm;
    [|health_false].
  eexists _, _. split; [by rewrite <- app_assoc|].
  right. exists r, fields. by rewrite Hs.
Qed.

(** X26.  [check_health] of the remote adapter answers [True] exactly when
    the service answers with status 200 and a JSON object in which
    ["model_loaded"] is true and a ["status"] is present; without a
    ["status"] the answer is [False] though the model is loaded. *)
Theorem remote_check_health_true_iff
    (http_get : str -> http_outcome) (self : ASRClient.t)
    (l : list (level * health_message)) :
  fst (RemoteHealth.check_health http_get self l) = Return (JBool true) <->
  exists r fields,
    http_get (ASRClient.server_url self ++ py "/health") = Responds r /\
    status_code r = 200%Z /\
    response_json r = Some (JObject fields) /\
    is_Some (ASRClient.dict_get fields (py "status")) /\
    ASRClient.dict_get fields (py "model_loaded") = Some (JBool true).
Proof.
  run_health. split.
  - destruct (http_get _) as [r| |] eqn:Hget; [|done..].
    destruct (status_code r =? 200)%Z eqn:Hstatus; [|done].
    apply Z.eqb_eq in Hstatus.
    destruct (response_json r) as [[| | | | |fields]|] eqn:Hjson; try done.
    cbn [ASRClient.getitem].
    destruct (ASRClient.dict_get fields (py "status")) as [status|] eqn:Hs;
      [|done].
    destruct (ASRClient.dict_get fields (py "model_loaded")) as [loaded|] eqn:Hm;
      [|done].
    cbn [fst]. intros [= ->]. exists r, fields. by rewrite Hs.
  - intros (r & fields & -> & Hstatus & -> & [status Hs] & Hm).
    apply Z.eqb_eq in Hstatus. rewrite Hstatus. cbn [ASRClient.getitem].
    by rewrite Hs, Hm.
Qed.

Lemma remote_check_health_witness :
  fst (RemoteHealth.check_health
         (fun _ => Responds
            {| status_code := 200; response_text := [];
               response_json :=
                 Some (JObject [(py "model_loaded", JBool true)]) |})
         example_remote []) <>
  Return (JBool true).
Proof.
  intros Hreturned.
  apply (remote_check_health_true_iff
           (fun _ => Responds
              {| status_code := 200; response_text := [];
                 response_json :=
                   Some (JObject [(py "model_loaded", JBool true)]) |})
           example_remote [])
    in Hreturned as (r & fields & Hr & _ & Hjson & [status Hs] & _).
  injection Hr as <-. cbn [response_json] in Hjson. injection Hjson as <-.
  vm_compute in Hs. discriminate.
Defined.

Lemma elem_of_lstrip_by p (s : str) c : c ∈ lstrip_by p s -> c ∈ s.
Proof.
  destruct (lstrip_by_suffix p s) as [pre H]. intros Hc.
  rewrite H. apply elem_of_app. by right.
Qed.

Lemma elem_of_rstrip_by p (s : str) c : c ∈ rstrip_by p s -> c ∈ s.
Proof.
  destruct (rstrip_by_prefix p s) as [suf H]. intros Hc.
  rewrite H. apply elem_of_app. by left.
Qed.

Lemma elem_of_strip_by p (s : str) c : c ∈ strip_by p s -> c ∈ s.
Proof. intros Hc. by apply (elem_of_lstrip_by p), (elem_of_rstrip_by p). Qed.

Lemma elem_of_split_piece sep (s piece : str) c :
  sep <> [] -> piece ∈ split sep s -> c ∈ piece -> c ∈ s.
Proof.
  intros Hsep Hpiece Hc.
  destruct (split_pieces_are_substrings sep s piece Hsep Hpiece) as (a & b & ->).
  rewrite !elem_of_app. by right; left.
Qed.

(** The fields of a segment are made of characters of the text parsed. *)
Lemma segment_fields_from_text stdout_text w segments parsed c :
  fst (LocalASRClient.parse_segments stdout_text w) = Return segments ->
  parsed ∈ segments ->
  c ∈ start parsed \/ c ∈ end_ parsed \/ c ∈ text parsed ->
  c ∈ stdout_text.
Proof.
  rewrite parse_segments_eq. cbn [fst]. intros [= <-] Hin Hc.
  apply list_elem_of_omap in Hin as (line & Hline_in & Hline).
  apply (elem_of_strip_by isspace).
  apply (elem_of_split_piece [LF] _ line); [done..|].
  apply (elem_of_strip_by isspace). fold (strip line).
  unfold line_segment in Hline.
  destruct (is_segment_line (strip line)) eqn:Hform; [|done].
  destruct (parse_line (strip line)) as [parsed'|] eqn:Hparse; [|done].
  injection Hline as ->.
  apply andb_true_iff in Hform as [Hopen _].
  destruct (parse_line_inv _ _ Hopen Hparse)
    as (start_time & end_time & text' & Heq & Hwf).
  rewrite Heq in Hparse |- *. rewrite parse_line_well_formed in Hparse by done.
  injection Hparse as <-. cbn [start end_ text] in Hc.
  unfold segment_line. rewrite !elem_of_app.
  destruct Hc as [Hc|[Hc|Hc]]; apply (elem_of_strip_by isspace) in Hc.
  - apply elem_of_lstrip_by in Hc. tauto.
  - apply elem_of_rstrip_by in Hc. tauto.
  - tauto.
Qed.

(** X27.  When every ESC of the standard output begins a sequence of the
    pattern, one scan removes them all: the sanitized text holds no ESC,
    hence no sequence of the pattern, and no field of a segment parsed from
    it holds one, which is what the comment of line 272 says of the
    text. *)
Theorem complete_escapes_leave_clean_segments (stdout_text : str) :
  escapes_complete stdout_text ->
  (ESC ∉ sanitize stdout_text) /\
  ~ has_match ansi_escape (sanitize stdout_text) /\
  forall (w : world) (segments : list segment) (parsed : segment),
    fst (LocalASRClient.parse_segments (sanitize stdout_text) w) =
      Return segments ->
    parsed ∈ segments ->
    (ESC ∉ start parsed) /\ (ESC ∉ end_ parsed) /\ (ESC ∉ text parsed).
Proof.
  intros Hcomplete.
  pose proof (sanitize_complete_no_esc stdout_text Hcomplete) as Hesc.
  split_and!; [done|by apply no_esc_no_match|].
  intros w segments parsed Hparse Hin.
  split_and!; intros Hc; apply Hesc;
    apply (segment_fields_from_text _ w segments parsed); auto.
Qed.

Lemma complete_escapes_witness :
  (ESC ∉ sanitize (py "[00:00:01.000 --> 00:00:02.000]  " ++
                   ESC :: py "[1mHello" ++ ESC :: py "[0m")) /\
  (ESC ∉ py "Hello").
Proof.
  destruct (complete_escapes_leave_clean_segments
              (py "[00:00:01.000 --> 00:00:02.000]  " ++
               ESC :: py "[1mHello" ++ ESC :: py "[0m"))
    as (Hclean & _ & Hfields).
  - apply escapes_complete_check. vm_compute. reflexivity.
  - split; [exact Hclean|].
    apply (Hfields empty_world
             [{| start := py "00:00:01.000"; end_ := py "00:00:02.000";
                 text := py "Hello" |}]
             {| start := py "00:00:01.000"; end_ := py "00:00:02.000";
                text := py "Hello" |}).
    + vm_compute. reflexivity.
    + apply list_elem_of_singleton. reflexivity.
Defined.
